(** * Tyro: a proxy for the Sierra API (main.go)

    A shallow embedding of [main.go]: the two request paths
    ([statusHandler], [rawRewriter]), the header helper
    [setAuthorizationHeaders], and the token goroutine [tokener] together
    with the goroutines it starts and the channels [tokenChan],
    [refreshTokenChan] and [stopIntrim].

    Go strings are byte strings: they are [string] here.  Go [int] values
    are [Z].  Goroutines are program counters in a [world]; an unbuffered
    channel operation is a rendezvous step of two goroutines. *)

From Stdlib Require Import ZArith String Ascii List Lia.
From stdpp Require Import base list strings gmap.

Open Scope string_scope.

(** ** Package [strings] *)

Module strings.

(** [s[n:]]: [None] is Go's slice-bounds panic. *)
Fixpoint slice_from (n : nat) (s : string) : option string :=
  match n, s with
  | O, _ => Some s
  | S _, EmptyString => None
  | S k, String _ s' => slice_from k s'
  end.

(** The scan of [strings.Replace(s, old, new, n)] for a non-empty [old]:
    [limit] is the number of replacements still allowed ([None] when
    [n < 0]), [skip] the number of bytes of a matched [old] still to be
    passed over. *)
Fixpoint replace_scan (old new : string) (limit : option nat) (skip : nat)
    (s : string) : string :=
  match s with
  | EmptyString => EmptyString
  | String c s' =>
    match skip with
    | S k => replace_scan old new limit k s'
    | O =>
      if String.prefix old s then
        match limit with
        | Some O => s
        | Some (S m) => new +:+ replace_scan old new (Some m) (String.length old - 1) s'
        | None => new +:+ replace_scan old new None (String.length old - 1) s'
        end
      else String c (replace_scan old new limit O s')
    end
  end.

(** [strings.Replace].  Both call sites pass a two-byte [old]; for an empty
    [old] Go inserts [new] at every rune boundary, which needs UTF-8
    decoding and is left out: the string is returned as it is. *)
Definition Replace (s old new : string) (n : Z) : string :=
  match old with
  | EmptyString => s
  | _ =>
    if String.eqb old new then s
    else replace_scan old new (if (n <? 0)%Z then None else Some (Z.to_nat n)) O s
  end.

(** The scan of [strings.Split(s, sep)] for a non-empty [sep]: [cur] holds
    the bytes of the piece being read. *)
Fixpoint split_scan (sep : string) (skip : nat) (cur : string) (s : string)
    : list string :=
  match s with
  | EmptyString => [cur]
  | String c s' =>
    match skip with
    | S k => split_scan sep k cur s'
    | O =>
      if String.prefix sep s
      then cur :: split_scan sep (String.length sep - 1) EmptyString s'
      else split_scan sep O (cur +:+ String c EmptyString) s'
    end
  end.

(** [strings.Split] for a non-empty separator (the program splits on
    ["/"]); the result is never empty. *)
Definition Split (s sep : string) : list string :=
  split_scan sep O EmptyString s.

(** [strings.Join]. *)
Fixpoint Join (a : list string) (sep : string) : string :=
  match a with
  | [] => EmptyString
  | [x] => x
  | x :: rest => x +:+ sep +:+ Join rest sep
  end.

End strings.

(** ** Package [path] *)

Module path.

(** One path element of [path.Clean], on the stack of elements kept so far
    (last element first): empty and [.] elements are dropped; [..] removes
    the element before it, stays when it is a leading [..] of a path that is
    not rooted, and is dropped at the root. *)
Definition clean_elem (rooted : bool) (stack : list string) (elem : string)
    : list string :=
  if String.eqb elem "" || String.eqb elem "." then stack
  else if String.eqb elem ".." then
    match stack with
    | top :: rest => if String.eqb top ".." then elem :: stack else rest
    | [] => if rooted then [] else [elem]
    end
  else elem :: stack.

Definition is_rooted (p : string) : bool :=
  match p with
  | String c _ => Ascii.eqb c "/"%char
  | EmptyString => false
  end.

(** The elements [path.Clean] keeps, in order. *)
Definition elements (p : string) : list string :=
  rev (fold_left (clean_elem (is_rooted p)) (strings.Split p "/") []).

Definition build (rooted : bool) (elems : list string) : string :=
  let body := strings.Join elems "/" in
  if rooted then "/" +:+ body
  else if String.eqb body "" then "." else body.

(** [path.Clean]: the shortest path equivalent to [p] by lexical
    processing, following the rules of the package documentation. *)
Definition Clean (p : string) : string := build (is_rooted p) (elements p).

(** [path.Join]: the elements from the first non-empty one on, joined with
    slashes and cleaned; the empty string when every element is empty. *)
Fixpoint Join (elem : list string) : string :=
  match elem with
  | [] => EmptyString
  | e :: rest =>
    if String.eqb e "" then Join rest else Clean (strings.Join elem "/")
  end.

End path.

(** ** Package [time] *)

Module time.

(** A [time.Time]: [sec] counts seconds since January 1, year 1 00:00:00
    UTC, [nsec] the nanoseconds within the second, and [offset] is the
    offset of the time's location in seconds east of UTC. *)
Record Time := { sec : Z; nsec : Z; offset : Z }.

Definition zero : Time := {| sec := 0; nsec := 0; offset := 0 |}.

Definition IsZero (t : Time) : bool := (sec t =? 0)%Z && (nsec t =? 0)%Z.

Definition secondsPerDay : Z := 86400.
Definition daysPer400Years : Z := 365 * 400 + 97.
Definition daysPer100Years : Z := 365 * 100 + 24.
Definition daysPer4Years : Z := 365 * 4 + 1.
Definition absoluteZeroYear : Z := -292277022399.
Definition internalToAbsolute : Z := 9223371966579724800.

(** [t.abs()]: seconds since the absolute zero year in the time's own
    location, as a [uint64]. *)
Definition abs (t : Time) : Z :=
  ((sec t + offset t + internalToAbsolute) mod 2 ^ 64)%Z.

Definition isLeap (year : Z) : bool :=
  (Z.rem year 4 =? 0)%Z && (negb (Z.rem year 100 =? 0)%Z || (Z.rem year 400 =? 0)%Z).

Definition daysBefore (m : Z) : Z :=
  nth (Z.to_nat m) [0; 31; 59; 90; 120; 151; 181; 212; 243; 273; 304; 334; 365]%Z 0%Z.

(** [absDate(abs, true)]: year, month (January is 1) and day of the month. *)
Definition absDate (abs : Z) : Z * Z * Z :=
  let d := (abs / secondsPerDay)%Z in
  let n := (d / daysPer400Years)%Z in
  let y := (400 * n)%Z in
  let d := (d - daysPer400Years * n)%Z in
  let n := (d / daysPer100Years)%Z in
  let n := (n - Z.shiftr n 2)%Z in
  let y := (y + 100 * n)%Z in
  let d := (d - daysPer100Years * n)%Z in
  let n := (d / daysPer4Years)%Z in
  let y := (y + 4 * n)%Z in
  let d := (d - daysPer4Years * n)%Z in
  let n := (d / 365)%Z in
  let n := (n - Z.shiftr n 2)%Z in
  let y := (y + n)%Z in
  let d := (d - 365 * n)%Z in
  let year := (y + absoluteZeroYear)%Z in
  let day := d in
  if isLeap year && (day =? 31 + 29 - 1)%Z then (year, 2, 29)%Z
  else
    let day := if isLeap year && (31 + 29 - 1 <? day)%Z then (day - 1)%Z else day in
    let month := (day / 31)%Z in
    let end_ := daysBefore (month + 1) in
    if (end_ <=? day)%Z
    then (year, month + 1 + 1, day - end_ + 1)%Z
    else (year, month + 1, day - daysBefore month + 1)%Z.

Definition Date (t : Time) : Z * Z * Z := absDate (abs t).

Definition digit (d : Z) : ascii := ascii_of_nat (48 + Z.to_nat d).

(** The decimal digits of [u], most significant first, in front of [acc];
    the buffer of [appendInt] has 20 bytes. *)
Fixpoint utoa (room : nat) (u : Z) (acc : string) : string :=
  match room with
  | O => acc
  | S room' =>
    if (u <? 10)%Z then String (digit u) acc
    else utoa room' (u / 10)%Z (String (digit (u mod 10)) acc)
  end.

Fixpoint zeros (n : nat) : string :=
  match n with
  | O => EmptyString
  | S k => String "0"%char (zeros k)
  end.

(** [appendInt(b, x, width)]: [x] in decimal, padded with zeros to [width]
    digits, after a minus sign when negative. *)
Definition appendInt (x : Z) (width : nat) : string :=
  let ds := utoa 20 (Z.abs x) EmptyString in
  (if (x <? 0)%Z then "-" else "") +:+ zeros (width - String.length ds) +:+ ds.

Definition longMonthNames : list string :=
  ["January"; "February"; "March"; "April"; "May"; "June"; "July";
   "August"; "September"; "October"; "November"; "December"].

Definition Month_String (m : Z) : string :=
  nth (Z.to_nat (m - 1)) longMonthNames EmptyString.

(** [t.Format("January 2, 2006")]: the layout is the full month name, a
    space, the day of the month without padding, a comma and a space, and
    the year padded to four digits. *)
Definition Format_January_2_2006 (t : Time) : string :=
  let '(year, month, day) := Date t in
  Month_String month +:+ " " +:+ appendInt day 0 +:+ ", " +:+ appendInt year 4.

End time.

(** ** Packages [net/url] and [net/http] *)

(** A [url.URL]. *)
Record URL := {
  Scheme : string;
  Opaque : string;
  User : option string;
  Host : string;
  Path : string;
  RawQuery : string;
  Fragment : string
}.

Definition URL_with_Path (u : URL) (p : string) : URL :=
  {| Scheme := Scheme u; Opaque := Opaque u; User := User u; Host := Host u;
     Path := p; RawQuery := RawQuery u; Fragment := Fragment u |}.

Definition URL_with_RawQuery (u : URL) (q : string) : URL :=
  {| Scheme := Scheme u; Opaque := Opaque u; User := User u; Host := Host u;
     Path := Path u; RawQuery := q; Fragment := Fragment u |}.

(** [http.Header] and [url.Values] are both [map[string][]string].  The
    keys the program uses are already in canonical form. *)
Abbreviation Header := (gmap string (list string)).
Abbreviation Values := (gmap string (list string)).

Definition Header_Add (h : Header) (key value : string) : Header :=
  <[key := (default [] (h !! key) ++ [value])%list]> h.

Definition Header_Get (h : Header) (key : string) : string :=
  match h !! key with
  | Some (v :: _) => v
  | _ => EmptyString
  end.

Definition Values_Set (v : Values) (key value : string) : Values :=
  <[key := [value]]> v.

(** The fields of an [http.Request] that the program reads or writes. *)
Record Request := {
  Method : string;
  ReqURL : URL;
  ReqHeader : Header;
  RemoteAddr : string
}.

Definition Request_with_URL (r : Request) (u : URL) : Request :=
  {| Method := Method r; ReqURL := u; ReqHeader := ReqHeader r;
     RemoteAddr := RemoteAddr r |}.

Definition Request_with_Header (r : Request) (h : Header) : Request :=
  {| Method := Method r; ReqURL := ReqURL r; ReqHeader := h;
     RemoteAddr := RemoteAddr r |}.

(** The configuration of a run and the library functions the program calls
    whose results it only passes on: the [-url] and [-verbose] flags,
    [url.Parse], [URL.Query], [Values.Encode], and the host part returned by
    [net.SplitHostPort] (empty on error). *)
Class Platform := {
  apiURL : string;
  verbose : bool;
  url_Parse : string -> option URL;
  URL_Query : URL -> Values;
  Values_Encode : Values -> string;
  SplitHostPort_host : string -> string
}.

Definition TokenRequestEndpoint : string := "token".
Definition ItemRequestEndpoint : string := "items".

Definition StatusInternalServerError : Z := 500.
Definition StatusBadRequest : Z := 400.
Definition StatusOK : Z := 200.

(** ** [setAuthorizationHeaders] (lines 465-478) *)

(** The original request [or] is a pointer: [rawRewriter] passes the request
    it is rewriting for both arguments, [statusHandler] passes the inbound
    request next to the new one. *)
Inductive original_request :=
| SameRequest
| OtherRequest (or : Request).

Definition Request_Header_Add (r : Request) (key value : string) : Request :=
  Request_with_Header r (Header_Add (ReqHeader r) key value).

Definition setAuthorizationHeaders `{Platform} (nr : Request)
    (or : original_request) (t : string) : Request :=
  let nr := Request_Header_Add nr "Authorization" ("Bearer " +:+ t) in
  let nr := Request_Header_Add nr "User-Agent" "Tyro" in
  let or := match or with SameRequest => nr | OtherRequest r => r end in
  let originalForwardFor := Header_Get (ReqHeader or) "X-Forwarded-For" in
  if String.eqb originalForwardFor "" then
    Request_Header_Add nr "X-Forwarded-For" (SplitHostPort_host (RemoteAddr or))
  else
    Request_Header_Add nr "X-Forwarded-For" originalForwardFor.

(** ** [rawRewriter] (lines 296-325), from the token it received on *)

Inductive logged :=
| LogText (message : string)
| LogRequest (r : Request).

Definition logIfVerbose `{Platform} (message : logged) : list logged :=
  if verbose then [message] else [].

(** The three ways the director ends: [log.Fatal], the slice-bounds panic
    of [r.URL.Path[len("/raw/"):]], or the rewritten request with the lines
    logged on the way. *)
Inductive raw_result :=
| RawFatal
| RawPanic
| RawForward (r : Request) (lines : list logged).

Definition rawRewriter `{Platform} (r : Request) (token : string)
    : raw_result :=
  let l1 := if String.eqb token "uninitialized"
            then logIfVerbose (LogText "Error at /raw/ handler, token not yet generated.")
            else [] in
  let l2 := if String.eqb token ""
            then logIfVerbose (LogText "Error at /raw/ handler, token creation failed.")
            else [] in
  match url_Parse apiURL with
  | None => RawFatal
  | Some parsedAPIURL =>
    match strings.slice_from (String.length "/raw/") (Path (ReqURL r)) with
    | None => RawPanic
    | Some rest =>
      let rawRequestURL :=
        URL_with_Path parsedAPIURL (path.Join [Path parsedAPIURL; rest]) in
      let rawRequestURL := URL_with_RawQuery rawRequestURL (RawQuery (ReqURL r)) in
      let r := Request_with_URL r rawRequestURL in
      let r := setAuthorizationHeaders r SameRequest token in
      RawForward r
        (l1 ++ l2 ++ logIfVerbose (LogText "Sending proxied request:")
            ++ logIfVerbose (LogRequest r))%list
    end
  end.

(** ** [statusHandler] (lines 165-294) *)

Module responseJSON.
(** An entry of the item endpoint's JSON. *)
Record Entry := {
  CallNumber : string;
  Status_DueDate : time.Time;
  Location_Name : string
}.
End responseJSON.

Module statusJSON.
Record Entry := {
  CallNumber : string;
  Status : string;
  Location : string
}.
End statusJSON.

(** The body of the loop over [responseJSON.Entries] (lines 258-271). *)
Definition newEntry (responseEntry : responseJSON.Entry) : statusJSON.Entry :=
  let callNumber := responseJSON.CallNumber responseEntry in
  let callNumber := strings.Replace callNumber "|a" " " (-1) in
  let callNumber := strings.Replace callNumber "|b" " " (-1) in
  {| statusJSON.CallNumber := callNumber;
     statusJSON.Status :=
       if time.IsZero (responseJSON.Status_DueDate responseEntry)
       then "IN LIBRARY"
       else "DUE " +:+ time.Format_January_2_2006 (responseJSON.Status_DueDate responseEntry);
     statusJSON.Location := responseJSON.Location_Name responseEntry |}.

(** What the handler wrote to its [http.ResponseWriter]: the text given to
    [http.Error], or the entries that [json.MarshalIndent] prints.  The
    response headers are given apart, by [statusHandler_Header]. *)
Inductive ResponseBody :=
| ErrorText (message : string)
| StatusJSON (entries : list statusJSON.Entry).

Record Response := { StatusCode : Z; Body : ResponseBody }.

Definition http_Error (message : string) (code : Z) : Response :=
  {| StatusCode := code; Body := ErrorText message |}.

(** Line 181: [strings.Split(r.URL.Path[len("/status/"):], "/")[0]];
    [None] is the slice-bounds panic. *)
Definition bibID (r : Request) : option string :=
  match strings.slice_from (String.length "/status/") (Path (ReqURL r)) with
  | None => None
  | Some rest => Some (hd EmptyString (strings.Split rest "/"))
  end.

(** Lines 169-209: from the received token to the request for the item
    endpoint. *)
Inductive status_prepared :=
| StatusRespond (resp : Response)
| StatusPanic
| StatusFatal
| StatusDo (getItemStatus : Request).

Definition statusHandler_prepare `{Platform} (r : Request) (token : string)
    : status_prepared :=
  if String.eqb token "uninitialized" then
    StatusRespond (http_Error "Token Error, token not yet created." StatusInternalServerError)
  else if String.eqb token "" then
    StatusRespond (http_Error "Token Error, token creation failed." StatusInternalServerError)
  else
    match bibID r with
    | None => StatusPanic
    | Some bibID =>
      if String.eqb bibID "" then
        StatusRespond (http_Error "Error, you need to provide a Bib ID. /status/[BidID]" StatusBadRequest)
      else
        match url_Parse apiURL with
        | None => StatusFatal
        | Some parsedAPIURL =>
          let itemStatusURL :=
            URL_with_Path parsedAPIURL (path.Join [Path parsedAPIURL; ItemRequestEndpoint]) in
          let q := URL_Query itemStatusURL in
          let q := Values_Set q "bibIds" bibID in
          let q := Values_Set q "deleted" "false" in
          let itemStatusURL := URL_with_RawQuery itemStatusURL (Values_Encode q) in
          let getItemStatus :=
            {| Method := "GET"; ReqURL := itemStatusURL; ReqHeader := ∅;
               RemoteAddr := EmptyString |} in
          StatusDo (setAuthorizationHeaders getItemStatus (OtherRequest r) token)
        end
    end.

(** What [client.Do(getItemStatus)] and the JSON decoder give back: a
    transport error, or a status code with the decoded entries ([None] when
    decoding fails). *)
Inductive ItemReply :=
| ItemTransportError
| ItemResponse (status : Z) (entries : option (list responseJSON.Entry)).

(** Lines 213-292: the response written, and whether the handler sends on
    [refreshTokenChan] before it returns. *)
Definition statusHandler_finish (reply : ItemReply) : Response * bool :=
  match reply with
  | ItemTransportError =>
    (http_Error "Error querying Sierra API" StatusInternalServerError, false)
  | ItemResponse status entries =>
    if (status =? 401)%Z then
      (http_Error "Token is out of date, or is refreshing. Try request again."
         StatusInternalServerError, true)
    else
      match entries with
      | None => (http_Error "JSON Decoding Error" StatusInternalServerError, false)
      | Some entries =>
        ({| StatusCode := StatusOK; Body := StatusJSON (map newEntry entries) |}, false)
      end
  end.

(** ** The goroutines and their channels *)

Record AuthTokenResponse := {
  AccessToken : string;
  TokenType : string;
  ExpiresIn : Z
}.

(** What [client.Do(getTokenRequest)] and the JSON decoder give back. *)
Inductive TokenReply :=
| TokenTransportError
| TokenResponse (status : Z) (body : option AuthTokenResponse).

(** The goroutines that send on [refreshTokenChan]. *)
Inductive sender :=
| SMain
| STimer (i : nat)
| SHandler (h : nat).

(** The goroutines that send on [tokenChan]. *)
Inductive server :=
| ByTokener
| ByInterim (i : nat).

(** [main], from line 145 on. *)
Inductive main_pc :=
| MGo          (* line 145: go tokener() *)
| MTrigger     (* line 146: refreshTokenChan <- true *)
| MServe.      (* lines 148-155: ListenAndServe *)

(** [tokener]; [i] names the interim goroutine of the refresh under way and
    with it the channel [stopIntrim]. *)
Inductive tokener_pc :=
| TNotStarted
| TSelect                                       (* line 338 *)
| TDo (i : nat)                                 (* line 382: client.Do *)
| TStop (i : nat) (responseJSON : AuthTokenResponse)   (* line 411 *)
| TWait (i : nat) (responseJSON : AuthTokenResponse)   (* line 412 *)
| TReturned.                                    (* lines 388, 394, 406 *)

(** The goroutine of lines 345-358. *)
Inductive interim_pc :=
| ISpawned                        (* before oldToken := token *)
| IServing (oldToken : string)    (* line 350: the select *)
| IStopped                        (* line 354: close(stopIntrim) *)
| IClosed.

(** The goroutine of lines 418-421. *)
Inductive timer_pc :=
| TmSleep (seconds : Z)     (* line 419 *)
| TmTrigger                 (* line 420: refreshTokenChan <- true *)
| TmDone.

(** The goroutine the server runs for one request. *)
Inductive handler_pc :=
| HStatusToken (r : Request)                 (* line 167: <-tokenChan *)
| HStatusDo (r getItemStatus : Request)      (* line 212: client.Do *)
| HStatusTrigger (resp : Response)           (* line 223: refreshTokenChan <- true *)
| HRawToken (r : Request)                    (* line 298: <-tokenChan *)
| HForwarded (r : Request)                   (* rawRewriter returned *)
| HReturned (resp : Response)                (* statusHandler returned *)
| HPanicked.

(** What an execution has done so far, latest first. *)
Inductive event :=
| EvRefresh (s : sender) (token : string)
    (* tokener received from refreshTokenChan; [token] is its variable then *)
| EvTokenDo                          (* client.Do(getTokenRequest) was called *)
| EvTokenDone (reply : TokenReply)   (* and returned *)
| EvFailed                           (* token = "" and return *)
| EvFresh (token : string)           (* line 414: token = responseJSON.AccessToken *)
| EvGet (h : nat) (from : server) (token : string)   (* handler h received on tokenChan *)
| EvItemDo (h : nat) (getItemStatus : Request)       (* client.Do(getItemStatus) was called *)
| EvRespond (h : nat) (resp : Response).             (* handler h wrote its response *)

Record world := {
  exited : bool;                 (* log.Fatal was reached *)
  token : string;                (* the variable of tokener, shared with its closures *)
  mainG : main_pc;
  tokenerG : tokener_pc;
  interims : list interim_pc;
  timers : list timer_pc;
  handlers : list handler_pc;
  log : list event
}.

Definition init : world :=
  {| exited := false; token := "uninitialized"; mainG := MGo;
     tokenerG := TNotStarted; interims := []; timers := []; handlers := [];
     log := [] |}.

Definition set_exited (w : world) : world :=
  {| exited := true; token := token w; mainG := mainG w; tokenerG := tokenerG w;
     interims := interims w; timers := timers w; handlers := handlers w;
     log := log w |}.

Definition set_token (t : string) (w : world) : world :=
  {| exited := exited w; token := t; mainG := mainG w; tokenerG := tokenerG w;
     interims := interims w; timers := timers w; handlers := handlers w;
     log := log w |}.

Definition set_main (m : main_pc) (w : world) : world :=
  {| exited := exited w; token := token w; mainG := m; tokenerG := tokenerG w;
     interims := interims w; timers := timers w; handlers := handlers w;
     log := log w |}.

Definition set_tokener (t : tokener_pc) (w : world) : world :=
  {| exited := exited w; token := token w; mainG := mainG w; tokenerG := t;
     interims := interims w; timers := timers w; handlers := handlers w;
     log := log w |}.

Definition set_interims (l : list interim_pc) (w : world) : world :=
  {| exited := exited w; token := token w; mainG := mainG w; tokenerG := tokenerG w;
     interims := l; timers := timers w; handlers := handlers w; log := log w |}.

Definition set_timers (l : list timer_pc) (w : world) : world :=
  {| exited := exited w; token := token w; mainG := mainG w; tokenerG := tokenerG w;
     interims := interims w; timers := l; handlers := handlers w; log := log w |}.

Definition set_handlers (l : list handler_pc) (w : world) : world :=
  {| exited := exited w; token := token w; mainG := mainG w; tokenerG := tokenerG w;
     interims := interims w; timers := timers w; handlers := l; log := log w |}.

Definition record (e : event) (w : world) : world :=
  {| exited := exited w; token := token w; mainG := mainG w; tokenerG := tokenerG w;
     interims := interims w; timers := timers w; handlers := handlers w;
     log := e :: log w |}.

(** The steps of an execution: what the scheduler, the network and the
    clients choose. *)
Inductive action :=
| AGoTokener                          (* main starts tokener *)
| ARefresh (s : sender)               (* rendezvous on refreshTokenChan *)
| AInterimStart (i : nat)             (* oldToken := token *)
| AServe (from : server) (h : nat)    (* rendezvous on tokenChan *)
| ATokenReply (reply : TokenReply)    (* client.Do returns in tokener *)
| AStop                               (* rendezvous on stopIntrim *)
| AClose (i : nat)                    (* close(stopIntrim) *)
| AResume                             (* line 412 on the closed channel, to line 421 *)
| AWake (i : nat)                     (* time.Sleep returns *)
| AAccept (r : Request)               (* the server starts a handler *)
| AItemReply (h : nat) (reply : ItemReply).   (* client.Do returns in handler h *)

(** The routes of [init] that lead to the two handlers of the model. *)
Definition route (r : Request) : option handler_pc :=
  if String.prefix "/status/" (Path (ReqURL r)) then Some (HStatusToken r)
  else if String.prefix "/raw/" (Path (ReqURL r)) then Some (HRawToken r)
  else None.

(** The goroutine [s] is at its send on [refreshTokenChan]; it goes on. *)
Definition send_refresh (s : sender) (w : world) : option world :=
  match s with
  | SMain =>
    match mainG w with
    | MTrigger => Some (set_main MServe w)
    | _ => None
    end
  | STimer i =>
    match timers w !! i with
    | Some TmTrigger => Some (set_timers (<[i := TmDone]> (timers w)) w)
    | _ => None
    end
  | SHandler h =>
    match handlers w !! h with
    | Some (HStatusTrigger resp) => Some (set_handlers (<[h := HReturned resp]> (handlers w)) w)
    | _ => None
    end
  end.

(** [tokener] from the receive of line 339 to [client.Do] of line 382. *)
Definition tokener_refresh `{Platform} (s : sender) (w : world) : world :=
  let i := length (interims w) in
  let w := record (EvRefresh s (token w)) w in
  let w := set_interims (interims w ++ [ISpawned]) w in
  match url_Parse apiURL with
  | None => set_exited w
  | Some _ => record EvTokenDo (set_tokener (TDo i) w)
  end.

(** The goroutine that sends on [tokenChan] and the token it sends. *)
Definition serve_token (from : server) (w : world) : option string :=
  match from with
  | ByTokener =>
    match tokenerG w with
    | TSelect => Some (token w)
    | _ => None
    end
  | ByInterim i =>
    match interims w !! i with
    | Some (IServing oldToken) => Some oldToken
    | _ => None
    end
  end.

(** Handler [h] receives [t] on [tokenChan] and runs to its next channel
    operation or network call. *)
Definition receive_token `{Platform} (h : nat) (from : server) (t : string)
    (w : world) : option world :=
  match handlers w !! h with
  | Some (HStatusToken r) =>
    let w := record (EvGet h from t) w in
    match statusHandler_prepare r t with
    | StatusRespond resp =>
      Some (record (EvRespond h resp) (set_handlers (<[h := HReturned resp]> (handlers w)) w))
    | StatusPanic => Some (set_handlers (<[h := HPanicked]> (handlers w)) w)
    | StatusFatal => Some (set_exited w)
    | StatusDo getItemStatus =>
      Some (record (EvItemDo h getItemStatus)
              (set_handlers (<[h := HStatusDo r getItemStatus]> (handlers w)) w))
    end
  | Some (HRawToken r) =>
    let w := record (EvGet h from t) w in
    match rawRewriter r t with
    | RawFatal => Some (set_exited w)
    | RawPanic => Some (set_handlers (<[h := HPanicked]> (handlers w)) w)
    | RawForward r' _ => Some (set_handlers (<[h := HForwarded r']> (handlers w)) w)
    end
  | _ => None
  end.

(** Lines 383-409: the three failures set [token] and return. *)
Definition tokener_reply (i : nat) (reply : TokenReply) (w : world) : world :=
  let w := record (EvTokenDone reply) w in
  let failed := record EvFailed (set_tokener TReturned (set_token "" w)) in
  match reply with
  | TokenTransportError => failed
  | TokenResponse status body =>
    if negb (status =? 200)%Z then failed
    else
      match body with
      | None => failed
      | Some responseJSON => set_tokener (TStop i responseJSON) w
      end
  end.

Definition exec `{Platform} (a : action) (w : world) : option world :=
  if exited w then None else
  match a with
  | AGoTokener =>
    match mainG w, tokenerG w with
    | MGo, TNotStarted => Some (set_main MTrigger (set_tokener TSelect w))
    | _, _ => None
    end
  | ARefresh s =>
    match tokenerG w with
    | TSelect => tokener_refresh s <$> send_refresh s w
    | _ => None
    end
  | AInterimStart i =>
    match interims w !! i with
    | Some ISpawned => Some (set_interims (<[i := IServing (token w)]> (interims w)) w)
    | _ => None
    end
  | AServe from h =>
    match serve_token from w with
    | Some t => receive_token h from t w
    | None => None
    end
  | ATokenReply reply =>
    match tokenerG w with
    | TDo i => Some (tokener_reply i reply w)
    | _ => None
    end
  | AStop =>
    match tokenerG w with
    | TStop i responseJSON =>
      match interims w !! i with
      | Some (IServing _) =>
        Some (set_tokener (TWait i responseJSON)
                (set_interims (<[i := IStopped]> (interims w)) w))
      | _ => None
      end
    | _ => None
    end
  | AClose i =>
    match interims w !! i with
    | Some IStopped => Some (set_interims (<[i := IClosed]> (interims w)) w)
    | _ => None
    end
  | AResume =>
    match tokenerG w with
    | TWait i responseJSON =>
      match interims w !! i with
      | Some IClosed =>
        Some (set_tokener TSelect
                (set_timers (timers w ++ [TmSleep (ExpiresIn responseJSON - 20)])
                   (record (EvFresh (AccessToken responseJSON))
                      (set_token (AccessToken responseJSON) w))))
      | _ => None
      end
    | _ => None
    end
  | AWake i =>
    match timers w !! i with
    | Some (TmSleep _) => Some (set_timers (<[i := TmTrigger]> (timers w)) w)
    | _ => None
    end
  | AAccept r =>
    match mainG w, route r with
    | MServe, Some pc => Some (set_handlers (handlers w ++ [pc]) w)
    | _, _ => None
    end
  | AItemReply h reply =>
    match handlers w !! h with
    | Some (HStatusDo _ _) =>
      let '(resp, trigger) := statusHandler_finish reply in
      Some (record (EvRespond h resp)
              (set_handlers
                 (<[h := if trigger then HStatusTrigger resp else HReturned resp]> (handlers w))
                 w))
    | _ => None
    end
  end.

(** An execution: the actions are taken in order, and all are possible. *)
Fixpoint run `{Platform} (acts : list action) (w : world) : option world :=
  match acts with
  | [] => Some w
  | a :: rest =>
    match exec a w with
    | Some w' => run rest w'
    | None => None
    end
  end.

(** ** Reading the claims *)

(** Every occurrence of [|a] and of [|b] replaced by one space, in a single
    pass from the left. *)
Fixpoint strip_markers (s : string) : string :=
  match s with
  | EmptyString => EmptyString
  | String c t =>
    match t with
    | EmptyString => s
    | String d s' =>
      if Ascii.eqb c "|" && (Ascii.eqb d "a" || Ascii.eqb d "b")
      then String " " (strip_markers s')
      else String c (strip_markers t)
    end
  end.

(** A path segment that [path.Clean] keeps as it is. *)
Definition plain (elem : string) : bool :=
  negb (String.eqb elem "" || String.eqb elem "." || String.eqb elem "..").

(** The three failures of a token refresh. *)
Definition refresh_failed (reply : TokenReply) : bool :=
  match reply with
  | TokenTransportError => true
  | TokenResponse status body =>
    negb (status =? 200)%Z || match body with None => true | Some _ => false end
  end.



(** The tokens handlers received in a stretch of the log. *)
Definition gets (l : list event) : list string :=
  omap (fun e => match e with EvGet _ _ t => Some t | _ => None end) l.

(** The refreshes begun in a stretch of the log, by who asked. *)
Definition refreshes (l : list event) : list sender :=
  omap (fun e => match e with EvRefresh s _ => Some s | _ => None end) l.

(** The calls of handler [h] to the item endpoint in a stretch of the log. *)
Definition item_calls (h : nat) (l : list event) : list Request :=
  omap (fun e => match e with
                 | EvItemDo h' r => if Nat.eqb h h' then Some r else None
                 | _ => None
                 end) l.

(** Calls to the token endpoint that were made and have not returned. *)
Fixpoint in_flight (l : list event) : Z :=
  match l with
  | [] => 0
  | EvTokenDo :: l' => in_flight l' + 1
  | EvTokenDone _ :: l' => in_flight l' - 1
  | _ :: l' => in_flight l'
  end.

(** The token that the last refresh to end has left: ["uninitialized"]
    before any has ended, [None] once one has failed. *)
Fixpoint credential (l : list event) : option string :=
  match l with
  | [] => Some "uninitialized"
  | EvFresh t :: _ => Some t
  | EvFailed :: _ => None
  | _ :: l' => credential l'
  end.

(** What the last call to the token endpoint returned. *)
Fixpoint last_reply (l : list event) : option TokenReply :=
  match l with
  | [] => None
  | EvTokenDone reply :: _ => Some reply
  | _ :: l' => last_reply l'
  end.

Definition fetched (responseJSON : AuthTokenResponse) : TokenReply :=
  TokenResponse 200 (Some responseJSON).

(** Every token received and every refresh begun agrees with the credential
    of the log before it, and every token assigned is the access token of
    the response just fetched. *)
Fixpoint log_ok (l : list event) : Prop :=
  match l with
  | [] => True
  | e :: l' =>
    log_ok l'
    /\ match e with
       | EvGet _ _ t => forall c, credential l' = Some c -> t = c
       | EvRefresh _ t => credential l' = Some t
       | EvFresh t =>
         exists responseJSON,
           last_reply l' = Some (fetched responseJSON)
           /\ AccessToken responseJSON = t
       | _ => True
       end
  end.

(** The response [tokener] holds between lines 409 and 421. *)
Definition held_response (t : tokener_pc) : option AuthTokenResponse :=
  match t with
  | TStop _ responseJSON | TWait _ responseJSON => Some responseJSON
  | _ => None
  end.

(** What the interim goroutine [j] may be doing, by where [tokener] is: only
    the interim goroutine of the refresh under way is not yet done. *)
Definition interim_ok (t : tokener_pc) (j : nat) (p : interim_pc) : Prop :=
  match t with
  | TNotStarted | TSelect => p = IClosed
  | TDo i | TStop i _ => j <> i -> p = IClosed
  | TWait i _ => if Nat.eqb j i then p = IStopped \/ p = IClosed else p = IClosed
  | TReturned => True
  end.

(** Events that neither end a refresh nor are constrained by the
    credential. *)
Definition quiet (e : event) : Prop :=
  match e with
  | EvRespond _ _ | EvItemDo _ _ => True
  | _ => False
  end.

Record invariant (w : world) : Prop := {
  inv_main : mainG w = MGo -> tokenerG w = TNotStarted;
  inv_log : log_ok (log w);
  inv_in_flight :
    in_flight (log w) = match tokenerG w with TDo _ => 1%Z | _ => 0%Z end;
  inv_reply : forall responseJSON,
    held_response (tokenerG w) = Some responseJSON ->
    last_reply (log w) = Some (fetched responseJSON);
  inv_failed : credential (log w) = None -> tokenerG w = TReturned;
  inv_token : forall c, credential (log w) = Some c -> token w = c;
  inv_serving : forall c j old,
    credential (log w) = Some c -> interims w !! j = Some (IServing old) -> old = c;
  inv_interims : exited w = false ->
    forall j p, interims w !! j = Some p -> interim_ok (tokenerG w) j p
}.

(** [f] holds of every number below [n]. *)
Fixpoint all_below (n : nat) (f : Z -> bool) : bool :=
  match n with
  | O => true
  | S k => f (Z.of_nat k) && all_below k f
  end.

(** ** A configuration for worked executions

    The default [-url]; [url.Parse], [URL.Query], [Values.Encode] and
    [net.SplitHostPort] are given on the inputs the executions below use:
    a base URL without query, keys and values that need no escaping, and
    IPv4 [host:port] addresses. *)

Module Worked.

Definition DefaultURL : string := "https://sandbox.iii.com/iii/sierra-api/v1/".

Definition base : URL :=
  {| Scheme := "https"; Opaque := ""; User := None; Host := "sandbox.iii.com";
     Path := "/iii/sierra-api/v1/"; RawQuery := ""; Fragment := "" |}.

Definition encode (v : Values) : string :=
  "bibIds=" +:+ hd EmptyString (default [] (v !! "bibIds"))
  +:+ "&deleted=" +:+ hd EmptyString (default [] (v !! "deleted")).

Definition platform : Platform :=
  {| apiURL := DefaultURL;
     verbose := true;
     url_Parse := fun s => if String.eqb s DefaultURL then Some base else None;
     URL_Query := fun _ => ∅;
     Values_Encode := encode;
     SplitHostPort_host := fun addr => hd EmptyString (strings.Split addr ":") |}.

Definition get (p : string) (q : string) : Request :=
  {| Method := "GET";
     ReqURL := {| Scheme := ""; Opaque := ""; User := None; Host := "";
                  Path := p; RawQuery := q; Fragment := "" |};
     ReqHeader := ∅;
     RemoteAddr := "10.0.0.7:51234" |}.

Definition ok (t : string) : TokenReply :=
  TokenResponse 200 (Some {| AccessToken := t; TokenType := "bearer"; ExpiresIn := 3600 |}).

(** 2024-05-01T00:00:00Z. *)
Definition may_1_2024 : time.Time :=
  {| time.sec := 63850118400; time.nsec := 0; time.offset := 0 |}.

(** Start, and a first refresh that succeeds with token [t]. *)
Definition first_refresh (t : string) : list action :=
  [AGoTokener; ARefresh SMain; AInterimStart 0; ATokenReply (ok t);
   AStop; AClose 0; AResume].

(** The timer fires and a second refresh begins; while its call is in
    flight a status request is served the old token, meets a 401 and goes
    to its send on [refreshTokenChan]. *)
Definition trigger_during_refresh : list action :=
  (first_refresh "tok1"
   ++ [AAccept (get "/status/b1234" ""); AWake 0; ARefresh (STimer 0);
       AInterimStart 1; AServe (ByInterim 1) 0;
       AItemReply 0 (ItemResponse 401 None)])%list.

(** The second refresh succeeds, and the handler's send is received. *)
Definition second_refresh_succeeds : list action :=
  [ATokenReply (ok "tok2"); AStop; AClose 1; AResume; ARefresh (SHandler 0)].

(** The timer fires and a second refresh begins. *)
Definition second_refresh_begins : list action :=
  (first_refresh "tok1" ++ [AWake 0; ARefresh (STimer 0); AInterimStart 1])%list.

(** A status request after the second refresh has failed; the item
    endpoint answers 401. *)
Definition status_after_failure : list action :=
  [AAccept (get "/status/b1234" ""); AServe (ByInterim 1) 0;
   AItemReply 0 (ItemResponse 401 None)].

End Worked.

(** ** The rest of [statusHandler]: the response header (lines 279-291) *)

Definition Header_Set (h : Header) (key value : string) : Header :=
  <[key := [value]]> h.

Section AccessControl.

(** [strings.TrimSpace], which the program only applies to the pieces of
    the [-acaoheader] flag. *)
Variable TrimSpace : string -> string.

(** One round of the loop of lines 283-288. *)
Definition allow_origin (origin : string) (h : Header) (okOrigin : string)
    : Header :=
  let okOrigin := TrimSpace okOrigin in
  if negb (String.eqb okOrigin "") && String.eqb okOrigin origin
  then Header_Set h "Access-Control-Allow-Origin" okOrigin
  else h.

(** Lines 279-289, on the response header [h]; [r] is the inbound
    request. *)
Definition accessControlAllowOrigin (headerACAO : string) (r : Request)
    (h : Header) : Header :=
  if String.eqb headerACAO "*" then
    Header_Set h "Access-Control-Allow-Origin" "*"
  else if negb (String.eqb headerACAO "") then
    fold_left (allow_origin (Header_Get (ReqHeader r) "Origin"))
      (strings.Split headerACAO ";") h
  else h.

(** [http.Error] on the response header (Go 1.23; earlier versions do not
    delete Content-Length): it touches these three keys only. *)
Definition http_Error_Header (h : Header) : Header :=
  Header_Set
    (Header_Set (delete "Content-Length" h) "Content-Type" "text/plain; charset=utf-8")
    "X-Content-Type-Options" "nosniff".

(** The header of the response that [statusHandler] has written, from the
    header [h] of its [ResponseWriter].  Every error text is written by
    [http.Error] on a branch that returns before line 279 (lines 170, 176,
    184, 214, 221, 242 and 275); the entries are written at line 292,
    after the CORS block and the content type of line 291. *)
Definition statusHandler_Header (headerACAO : string) (r : Request)
    (resp : Response) (h : Header) : Header :=
  match Body resp with
  | ErrorText _ => http_Error_Header h
  | StatusJSON _ =>
    Header_Set (accessControlAllowOrigin headerACAO r h) "Content-Type" "application/json"
  end.

End AccessControl.

(** A sentinel of [tokener]: no credential yet, or none any more. *)
Definition sentinel (t : string) : bool :=
  String.eqb t "uninitialized" || String.eqb t "".

(** [sub] occurs somewhere in [s]. *)
Fixpoint occurs (sub s : string) : bool :=
  String.prefix sub s
  || match s with
     | EmptyString => false
     | String _ s' => occurs sub s'
     end.

(** The request whose X-Forwarded-For header and remote address
    [setAuthorizationHeaders] reads. *)
Definition original (nr : Request) (or : original_request) : Request :=
  match or with SameRequest => nr | OtherRequest r => r end.

(** ** Flags and the environment (lines 31-71, 109-145, 429-448) *)

Module flags.

(** The three kinds of [flag.Value] the program declares. *)
Inductive Value :=
| StringValue (s : string)
| BoolValue (b : bool)
| IntValue (i : Z).

(** A [flag.Flag]; [actual] says that [flag.Parse] has set it from the
    command line, which is what [flag.Visit] visits. *)
Record Flag := { Name : string; Val : Value; actual : bool }.

Definition EnvPrefix : string := "TYRO_".

(** [strings.ToUpper] on the bytes of an ASCII name, which the names of the
    program's flags are. *)
Definition upper (c : ascii) : ascii :=
  let n := nat_of_ascii c in
  if (97 <=? n)%nat && (n <=? 122)%nat then ascii_of_nat (n - 32) else c.

Fixpoint ToUpper (s : string) : string :=
  match s with
  | EmptyString => EmptyString
  | String c s' => String (upper c) (ToUpper s')
  end.

(** [strconv.ParseBool]. *)
Definition ParseBool (s : string) : option bool :=
  if existsb (String.eqb s) ["1"; "t"; "T"; "TRUE"; "true"; "True"] then Some true
  else if existsb (String.eqb s) ["0"; "f"; "F"; "FALSE"; "false"; "False"] then Some false
  else None.

Section Environment.

(** [strconv.ParseInt(s, 0, 64)], which an int flag applies to its
    argument; [os.Getenv] reads [env] and gives the empty string for a
    variable that is not set. *)
Variable ParseInt : string -> option Z.
Variable env : gmap string string.

Definition Getenv (key : string) : string := default EmptyString (env !! key).

(** [k.Value.Set(s)]; [None] is the error. *)
Definition Value_Set (v : Value) (s : string) : option Value :=
  match v with
  | StringValue _ => Some (StringValue s)
  | BoolValue _ => BoolValue <$> ParseBool s
  | IntValue _ => IntValue <$> ParseInt s
  end.

(** The body of the loop of lines 436-447 for one flag, applied to the
    flags that [flag.Visit] did not visit; [None] is [log.Fatalf]. *)
Definition override (k : Flag) : option Flag :=
  if actual k then Some k
  else
    let environmentVariableValue := Getenv (EnvPrefix +:+ ToUpper (Name k)) in
    if String.eqb environmentVariableValue "" then Some k
    else
      match Value_Set (Val k) environmentVariableValue with
      | Some v => Some {| Name := Name k; Val := v; actual := actual k |}
      | None => None
      end.

(** The flags are visited one by one and each step touches its own flag
    only, so the order of Go's map iteration does not show. *)
Definition overrideUnsetFlagsFromEnvironmentVariables (fs : list Flag)
    : option (list Flag) :=
  mapM override fs.

Definition value_of (name : string) (fs : list Flag) : option Value :=
  Val <$> List.find (fun k => String.eqb (Name k) name) fs.

Definition string_of (name : string) (fs : list Flag) : string :=
  match value_of name fs with
  | Some (StringValue s) => s
  | _ => EmptyString
  end.

(** How [main] gets to line 145. *)
Inductive startup :=
| FatalEnvironment            (* line 443 *)
| FatalClientKey              (* line 130 *)
| FatalClientSecret           (* line 132 *)
| GoTokener (fs : list Flag). (* line 145 *)

(** [main], lines 109-145, from the flags as [flag.Parse] left them; the
    log output and the lines printed are left out. *)
Definition main (fs : list Flag) : startup :=
  match overrideUnsetFlagsFromEnvironmentVariables fs with
  | None => FatalEnvironment
  | Some fs =>
    if String.eqb (string_of "key" fs) "" then FatalClientKey
    else if String.eqb (string_of "secret" fs) "" then FatalClientSecret
    else GoTokener fs
  end.

End Environment.

(** The flags of lines 59-71 with their defaults. *)
Definition defaults : list Flag :=
  map (fun '(name, v) => {| Name := name; Val := v; actual := false |})
    [("address", StringValue ":8877");
     ("verbose", BoolValue false);
     ("url", StringValue "https://sandbox.iii.com/iii/sierra-api/v1/");
     ("certfile", StringValue "");
     ("keyfile", StringValue "");
     ("key", StringValue "");
     ("secret", StringValue "");
     ("acaoheader", StringValue "*");
     ("logfile", StringValue "Stderr");
     ("logmaxsize", IntValue 100);
     ("logmaxbackups", IntValue 0);
     ("logmaxage", IntValue 0)].

(** [flag.Parse] setting flag [name] to [v] from the command line. *)
Definition set_actual (name : string) (v : Value) (fs : list Flag) : list Flag :=
  map (fun k => if String.eqb (Name k) name
                then {| Name := name; Val := v; actual := true |}
                else k) fs.

End flags.

(** ** More about executions *)

(** The steps the scheduler can take on its own: no reply from the
    network, no request and no rendezvous is needed for them. *)
Definition internal (a : action) : bool :=
  match a with
  | AInterimStart _ | AClose _ | AResume => true
  | _ => false
  end.

(** A handler at its receive on [tokenChan]. *)
Definition waiting (pc : handler_pc) : bool :=
  match pc with
  | HStatusToken _ | HRawToken _ => true
  | _ => false
  end.

(** An interim goroutine that has not yet received on [stopIntrim]. *)
Definition running (p : interim_pc) : bool :=
  match p with
  | ISpawned | IServing _ => true
  | IStopped | IClosed => false
  end.

Definition is_fresh (e : event) : bool :=
  match e with
  | EvFresh _ => true
  | _ => false
  end.

(** Which goroutines exist, by where [main] and [tokener] are. *)
Record goroutines (w : world) : Prop := {
  go_earlier : forall j p,
    interims w !! j = Some p -> S j < length (interims w) -> p = IClosed;
  go_current :
    match tokenerG w with
    | TNotStarted => interims w = []
    | TSelect =>
      forall j p, interims w !! j = Some p ->
        p = IClosed \/ exited w = true /\ p = ISpawned
    | TDo i | TStop i _ =>
      S i = length (interims w)
      /\ exists p, interims w !! i = Some p /\ running p = true
    | TWait i _ =>
      S i = length (interims w)
      /\ exists p, interims w !! i = Some p /\ running p = false
    | TReturned =>
      exists i p, S i = length (interims w)
                  /\ interims w !! i = Some p /\ running p = true
    end;
  go_interims : length (interims w) = length (refreshes (log w));
  go_timers : length (timers w) = length (List.filter is_fresh (log w));
  go_main :
    match mainG w with
    | MGo => tokenerG w = TNotStarted /\ log w = [] /\ handlers w = [] /\ timers w = []
    | MTrigger => tokenerG w = TSelect /\ log w = [] /\ handlers w = [] /\ timers w = []
    | MServe => last (refreshes (log w)) = Some SMain
    end
}.

(** The events of handler [h]. *)
Definition of_handler (h : nat) (e : event) : bool :=
  match e with
  | EvGet h' _ _ | EvItemDo h' _ | EvRespond h' _ => Nat.eqb h h'
  | _ => false
  end.

Definition handler_events (h : nat) (l : list event) : list event :=
  List.filter (of_handler h) l.

(** What handler [h] has done so far, by where it is. *)
Definition protocol `{Platform} (h : nat) (w : world) : Prop :=
  let evs := handler_events h (log w) in
  match handlers w !! h with
  | None => evs = []
  | Some (HStatusToken _) | Some (HRawToken _) =>
    evs = [] \/ exited w = true /\ exists from t, evs = [EvGet h from t]
  | Some (HStatusDo r getItemStatus) =>
    exists from t,
      evs = [EvItemDo h getItemStatus; EvGet h from t]
      /\ statusHandler_prepare r t = StatusDo getItemStatus
  | Some (HStatusTrigger resp) =>
    exists from t r getItemStatus,
      evs = [EvRespond h resp; EvItemDo h getItemStatus; EvGet h from t]
      /\ statusHandler_prepare r t = StatusDo getItemStatus
  | Some (HReturned resp) =>
    exists from t r,
      evs = [EvRespond h resp; EvGet h from t]
      /\ statusHandler_prepare r t = StatusRespond resp
      \/ exists getItemStatus,
           evs = [EvRespond h resp; EvItemDo h getItemStatus; EvGet h from t]
           /\ statusHandler_prepare r t = StatusDo getItemStatus
  | Some (HForwarded _) | Some HPanicked =>
    exists from t, evs = [EvGet h from t]
  end.

(** A handler that the routes of [init] can have started, and that has not
    panicked. *)
Definition routed (pc : handler_pc) : Prop :=
  match pc with
  | HStatusToken r => String.prefix "/status/" (Path (ReqURL r)) = true
  | HRawToken r => String.prefix "/raw/" (Path (ReqURL r)) = true
  | HPanicked => False
  | _ => True
  end.

(** ** More worked values *)

Module More.

(** A request to the raw proxy that comes through another proxy and brings
    an Authorization header of its own. *)
Definition forwarded : Request :=
  {| Method := "POST";
     ReqURL := {| Scheme := ""; Opaque := ""; User := None; Host := "";
                  Path := "/raw/patrons/find"; RawQuery := "barcode=21"; Fragment := "" |};
     ReqHeader :=
       <["X-Forwarded-For" := ["198.51.100.7"; "10.0.0.1"]]>
         (<["Authorization" := ["Basic Zm9v"]]> (<["Accept" := ["application/json"]]> ∅));
     RemoteAddr := "10.0.0.7:51234" |}.

(** The environment of a deployment that configures by variables. *)
Definition env : gmap string string :=
  <["TYRO_LOGMAXSIZE" := "10"]>
    (<["TYRO_VERBOSE" := "true"]>
       (<["TYRO_SECRET" := "s"]> (<["TYRO_KEY" := "k"]> ∅))).

(** Decimal numbers of one or two digits, enough for the variables above. *)
Definition ParseInt (s : string) : option Z :=
  if String.eqb s "10" then Some 10%Z
  else if String.eqb s "0" then Some 0%Z
  else None.

(** A request arrives while the second refresh is in the call and its
    interim goroutine has not run yet. *)
Definition waiting_during_refresh : list action :=
  (Worked.first_refresh "tok1"
   ++ [AAccept (Worked.get "/status/b1234" ""); AWake 0; ARefresh (STimer 0)])%list.

(** A request in every phase: while the first refresh is in its call, after
    it has succeeded, while the second is in its call, and after that one
    has succeeded; a fifth request has arrived and waits for its token. *)
Definition get_in_every_phase : list action :=
  let request := AAccept (Worked.get "/status/b1234" "") in
  ([AGoTokener; ARefresh SMain; AInterimStart 0; request; AServe (ByInterim 0) 0]
   ++ [ATokenReply (Worked.ok "tok1"); AStop; AClose 0; AResume;
       request; AServe ByTokener 1]
   ++ [AWake 0; ARefresh (STimer 0); AInterimStart 1;
       request; AServe (ByInterim 1) 2]
   ++ [ATokenReply (Worked.ok "tok2"); AStop; AClose 1; AResume;
       request; AServe ByTokener 3; request])%list.


End More.

(** ** Where tokens come from *)

(** [t] is a sentinel, or the access token of a response that the token
    endpoint gave with status 200 somewhere in the log. *)
Definition known (l : list event) (t : string) : Prop :=
  t = "uninitialized" \/ t = ""
  \/ exists responseJSON,
       EvTokenDone (fetched responseJSON) ∈ l /\ AccessToken responseJSON = t.

Record provenance (w : world) : Prop := {
  known_token : known (log w) (token w);
  known_serving : forall j old,
    interims w !! j = Some (IServing old) -> known (log w) old;
  known_gets : forall h from t, EvGet h from t ∈ log w -> known (log w) t
}.


(** * Properties *)

(** ** Tactics *)

(** Reading the cases of one step off [exec]. *)
Ltac exec_cases Hexec :=
  unfold exec, receive_token, tokener_refresh, tokener_reply, send_refresh,
    serve_token in Hexec;
  repeat (case_match; try discriminate);
  try (apply fmap_Some in Hexec as (? & Hexec & ?));
  repeat (case_match; try discriminate);
  simplify_eq.

(** The fields of [invariant] that follow from a field before the step. *)
Ltac inv_field Hmain Hfail :=
  try done; try lia;
  try (let Hx := fresh in
       intros Hx; first [by specialize (Hmain Hx) | by specialize (Hfail Hx)]).

Ltac exec_top Hexec :=
  unfold exec in Hexec;
  repeat (case_match; try discriminate);
  simplify_eq.

(** Looking up a handler after a step. *)
Ltac handler_lookup :=
  repeat match goal with
  | |- context [<[?i := _]> ?l !! ?i] =>
    rewrite (list_lookup_insert_eq l i) by (eapply lookup_lt_Some; eauto)
  | |- context [<[?i := _]> _ !! ?j] =>
    destruct (decide (i = j)) as [->|];
    [simplify_eq | rewrite list_lookup_insert_ne by done]
  | Hh : ?l !! ?j = Some _ |- context [(?l ++ _)%list !! ?j] =>
    rewrite (lookup_app_l_Some _ _ _ _ Hh)
  | |- context [Nat.eqb ?i ?j] =>
    destruct (Nat.eqb_spec i j); [simplify_eq|]
  end.

(** *** Call numbers *)

Section Replace2.

Variables (a b : ascii) (new : string).

Local Notation old := (String a (String b EmptyString)).

Lemma replace_scan_nil : strings.replace_scan old new None 0 "" = "".
Proof. reflexivity. Qed.

Lemma replace_scan_one c : strings.replace_scan old new None 0 (String c "") = String c "".
Proof. simpl. destruct (Ascii.ascii_dec a c); reflexivity. Qed.

Lemma prefix_hit s : String.prefix old (String a (String b s)) = true.
Proof.
  cbn [String.prefix].
  destruct (Ascii.ascii_dec a a); [|congruence].
  destruct (Ascii.ascii_dec b b); [|congruence].
  destruct s; reflexivity.
Qed.

Lemma replace_scan_hit s :
  strings.replace_scan old new None 0 (String a (String b s))
  = new +:+ strings.replace_scan old new None 0 s.
Proof.
  cbn [strings.replace_scan]. rewrite prefix_hit. reflexivity.
Qed.

Lemma replace_scan_miss c s :
  String.prefix old (String c s) = false ->
  strings.replace_scan old new None 0 (String c s)
  = String c (strings.replace_scan old new None 0 s).
Proof. intros Hp. cbn [strings.replace_scan]. rewrite Hp. reflexivity. Qed.

Lemma prefix_first c s : c <> a -> String.prefix old (String c s) = false.
Proof.
  intros Hc. cbn [String.prefix].
  destruct (Ascii.ascii_dec a c) as [e|e]; [symmetry in e; contradiction | reflexivity].
Qed.

Lemma prefix_second c s :
  (match s with String d _ => d <> b | EmptyString => True end) ->
  String.prefix old (String c s) = false.
Proof.
  intros Hd. cbn [String.prefix].
  destruct (Ascii.ascii_dec a c); [|reflexivity].
  destruct s as [|d s']; [reflexivity|]. cbn [String.prefix].
  destruct (Ascii.ascii_dec b d) as [e'|e']; [symmetry in e'; contradiction | reflexivity].
Qed.

End Replace2.

Lemma Replace_all_two (a b : ascii) (new s : string) :
  String a (String b "") <> new ->
  strings.Replace s (String a (String b "")) new (-1)
  = strings.replace_scan (String a (String b "")) new None 0 s.
Proof.
  intros Hne. unfold strings.Replace.
  destruct (String.eqb_spec (String a (String b "")) new); [contradiction|reflexivity].
Qed.

(** After [|a] is replaced, the first byte of what is left is the first
    byte of the input or a space. *)
Lemma replace_a_head c s :
  match strings.replace_scan "|a" " " None 0 (String c s) with
  | String d _ => d = c \/ d = " "%char
  | EmptyString => False
  end.
Proof.
  cbn [strings.replace_scan].
  destruct (String.prefix "|a" (String c s)); simpl; auto.
Qed.

Lemma strip_markers_scan_len n : forall s,
  String.length s <= n ->
  strings.replace_scan "|b" " " None 0 (strings.replace_scan "|a" " " None 0 s)
  = strip_markers s.
Proof.
  induction n as [|n IH]; intros s Hlen.
  - destruct s; [reflexivity | simpl in Hlen; lia].
  - destruct s as [|c t]; [reflexivity|].
    destruct t as [|d s'].
    { rewrite replace_scan_one. rewrite replace_scan_one. reflexivity. }
    simpl in Hlen.
    cbn [strip_markers].
    destruct (Ascii.eqb_spec c "|") as [->|Hc].
    + destruct (Ascii.eqb_spec d "a") as [->|Hda].
      * rewrite replace_scan_hit. cbn [andb orb].
        change (" " +:+ ?x) with (String " " x).
        rewrite replace_scan_miss by (apply prefix_first; discriminate).
        f_equal. apply IH. lia.
      * destruct (Ascii.eqb_spec d "b") as [->|Hdb]; cbn [andb orb].
        -- rewrite (replace_scan_miss "|" "a") by (apply prefix_second; discriminate).
           rewrite (replace_scan_miss "|" "a" _ "b") by (apply prefix_first; discriminate).
           rewrite replace_scan_hit.
           change (" " +:+ ?x) with (String " " x).
           f_equal. apply IH. lia.
        -- rewrite (replace_scan_miss "|" "a") by (apply prefix_second; congruence).
           rewrite (replace_scan_miss "|" "b").
           ++ f_equal. apply IH. simpl. lia.
           ++ apply prefix_second.
              pose proof (replace_a_head d s') as Hh.
              destruct (strings.replace_scan "|a" " " None 0 (String d s')); [exact I|].
              destruct Hh as [->| ->]; [congruence | discriminate].
    + cbn [andb].
      rewrite (replace_scan_miss "|" "a") by (apply prefix_first; exact Hc).
      rewrite (replace_scan_miss "|" "b") by (apply prefix_first; exact Hc).
      f_equal. apply IH. simpl. lia.
Qed.

(** C8: the call number that [statusHandler] emits for an entry is the
    upstream call number with every occurrence of [|a] and of [|b] replaced
    by one space; ["PZ123 .A1|b2024"] becomes ["PZ123 .A1 2024"]. *)
Theorem callNumber_markers_replaced :
  (forall e : responseJSON.Entry,
     statusJSON.CallNumber (newEntry e) = strip_markers (responseJSON.CallNumber e))
  /\ (forall (t : time.Time) (loc : string),
        statusJSON.CallNumber
          (newEntry {| responseJSON.CallNumber := "PZ123 .A1|b2024";
                       responseJSON.Status_DueDate := t;
                       responseJSON.Location_Name := loc |})
        = "PZ123 .A1 2024").
Proof.
  split.
  - intros e. unfold newEntry. cbn [statusJSON.CallNumber].
    rewrite (Replace_all_two "|" "a") by discriminate.
    rewrite (Replace_all_two "|" "b") by discriminate.
    apply (strip_markers_scan_len (String.length (responseJSON.CallNumber e))). lia.
  - intros t loc. reflexivity.
Qed.


(** *** Due dates *)

Example Date_may_1_2024 : time.Date Worked.may_1_2024 = (2024, 5, 1)%Z.
Proof. reflexivity. Qed.

Example Date_leap_day :
  time.Date {| time.sec := 63850118400 - 62 * 86400; time.nsec := 0; time.offset := 0 |}
  = (2024, 2, 29)%Z.
Proof. reflexivity. Qed.

Example Date_zero : time.Date time.zero = (1, 1, 1)%Z.
Proof. reflexivity. Qed.

Example Date_in_zone :
  time.Date {| time.sec := 63850118400 - 3600; time.nsec := 0; time.offset := 7200 |}
  = (2024, 5, 1)%Z.
Proof. reflexivity. Qed.

Lemma all_below_spec (n : nat) (f : Z -> bool) :
  all_below n f = true -> forall z, (0 <= z < Z.of_nat n)%Z -> f z = true.
Proof.
  induction n as [|k IH]; intros Hall z Hz; [lia|].
  cbn [all_below] in Hall. apply andb_prop in Hall as [Hk Hrest].
  destruct (Z.eq_dec z (Z.of_nat k)) as [->|Hne]; [exact Hk|].
  apply IH; [exact Hrest | lia].
Qed.

(** The year is printed with four digits for every year that an RFC 3339
    timestamp can carry, and the day without padding. *)
Lemma appendInt_year_length (year : Z) :
  (0 <= year <= 9999)%Z -> String.length (time.appendInt year 4) = 4.
Proof.
  intros Hy.
  apply Nat.eqb_eq.
  apply (all_below_spec (Z.to_nat 10000)
           (fun y => Nat.eqb (String.length (time.appendInt y 4)) 4)).
  - vm_compute. reflexivity.
  - lia.
Qed.

Lemma appendInt_day_length (day : Z) :
  (1 <= day <= 31)%Z ->
  String.length (time.appendInt day 0) = if (day <? 10)%Z then 1 else 2.
Proof.
  intros Hd.
  apply Nat.eqb_eq.
  apply (all_below_spec 32
           (fun d => Nat.eqb (String.length (time.appendInt d 0))
                       (if (d <? 10)%Z then 1 else 2))).
  - vm_compute. reflexivity.
  - lia.
Qed.

(** C7: the status that [statusHandler] emits for an entry is
    ["IN LIBRARY"] when the due date is the zero time, and otherwise
    ["DUE "] followed by the full month name, the day of the month without
    padding, a comma and the four-digit year of the due date; a due date of
    2024-05-01 gives ["DUE May 1, 2024"]. *)
Theorem status_of_due_date :
  (forall e : responseJSON.Entry,
     time.IsZero (responseJSON.Status_DueDate e) = true ->
     statusJSON.Status (newEntry e) = "IN LIBRARY")
  /\ (forall (e : responseJSON.Entry) (year month day : Z),
        time.IsZero (responseJSON.Status_DueDate e) = false ->
        time.Date (responseJSON.Status_DueDate e) = (year, month, day) ->
        statusJSON.Status (newEntry e)
        = "DUE " +:+ time.Month_String month +:+ " " +:+ time.appendInt day 0
          +:+ ", " +:+ time.appendInt year 4)
  /\ (forall (c loc : string),
        statusJSON.Status
          (newEntry {| responseJSON.CallNumber := c;
                       responseJSON.Status_DueDate := Worked.may_1_2024;
                       responseJSON.Location_Name := loc |})
        = "DUE May 1, 2024").
Proof.
  split; [|split].
  - intros e Hz. unfold newEntry. cbn [statusJSON.Status]. rewrite Hz. reflexivity.
  - intros e year month day Hz Hd. unfold newEntry. cbn [statusJSON.Status].
    rewrite Hz. unfold time.Format_January_2_2006. rewrite Hd. reflexivity.
  - intros c loc. reflexivity.
Qed.

Lemma status_of_due_date_witness :
  statusJSON.Status
    (newEntry {| responseJSON.CallNumber := "QA76";
                 responseJSON.Status_DueDate := time.zero;
                 responseJSON.Location_Name := "Stacks" |}) = "IN LIBRARY"
  /\ statusJSON.Status
       (newEntry {| responseJSON.CallNumber := "QA76";
                    responseJSON.Status_DueDate := Worked.may_1_2024;
                    responseJSON.Location_Name := "Stacks" |})
     = "DUE " +:+ time.Month_String 5 +:+ " " +:+ time.appendInt 1 0
       +:+ ", " +:+ time.appendInt 2024 4.
Proof.
  split.
  - apply (proj1 status_of_due_date). reflexivity.
  - apply (proj1 (proj2 status_of_due_date)); reflexivity.
Defined.


(** *** Requests without a record identifier *)

Section StatusHandler.

Context `{Platform}.

(** C5, as the code has it: a status request with an empty record
    identifier never leads to a call to the item endpoint, whatever the
    token; the response is 400 when the token is a credential, and 500 when
    it is one of the two sentinels, which are checked first. *)
Theorem empty_bibID_response (r : Request) (token : string) :
  bibID r = Some "" ->
  exists resp,
    statusHandler_prepare r token = StatusRespond resp
    /\ StatusCode resp
       = if String.eqb token "uninitialized" || String.eqb token ""
         then StatusInternalServerError else StatusBadRequest.
Proof.
  intros Hid. unfold statusHandler_prepare.
  destruct (String.eqb token "uninitialized"); [eexists; split; reflexivity|].
  destruct (String.eqb token ""); [eexists; split; reflexivity|].
  rewrite Hid. cbn [String.eqb]. eexists; split; reflexivity.
Qed.

End StatusHandler.

Lemma empty_bibID_response_witness :
  exists resp,
    @statusHandler_prepare Worked.platform (Worked.get "/status/" "") "tok1"
    = StatusRespond resp
    /\ StatusCode resp
       = if String.eqb "tok1" "uninitialized" || String.eqb "tok1" ""
         then StatusInternalServerError else StatusBadRequest.
Proof.
  apply (@empty_bibID_response Worked.platform (Worked.get "/status/" "") "tok1").
  reflexivity.
Defined.

(** C5 as stated fails: before the first refresh has completed, the request
    [/status/] is answered 500, not 400. *)
Lemma empty_bibID_uninitialized_500 :
  bibID (Worked.get "/status/" "") = Some ""
  /\ @statusHandler_prepare Worked.platform (Worked.get "/status/" "") "uninitialized"
     = StatusRespond (http_Error "Token Error, token not yet created." 500)
  /\ StatusCode (http_Error "Token Error, token not yet created." 500) <> StatusBadRequest.
Proof. split; [reflexivity | split; [reflexivity | discriminate]]. Qed.

(** *** The raw proxy *)

Lemma prefix_slash (c : ascii) (s : string) :
  String.prefix "/" (String c s) = Ascii.eqb c "/".
Proof.
  cbn [String.prefix].
  destruct (Ascii.ascii_dec "/" c) as [<-|Hne].
  - destruct s; reflexivity.
  - symmetry. apply Ascii.eqb_neq. congruence.
Qed.

Lemma split_scan_slash_app (b : string) : forall (a cur : string),
  strings.split_scan "/" 0 cur (a +:+ "/" +:+ b)
  = (strings.split_scan "/" 0 cur a ++ strings.split_scan "/" 0 "" b)%list.
Proof.
  induction a as [|c a IH]; intros cur.
  - change ("" +:+ "/" +:+ b) with (String "/" b).
    cbn [strings.split_scan]. rewrite prefix_slash. reflexivity.
  - change (String c a +:+ "/" +:+ b) with (String c (a +:+ "/" +:+ b)).
    cbn [strings.split_scan]. rewrite !prefix_slash.
    destruct (Ascii.eqb c "/"); cbn [String.length Nat.sub].
    + rewrite IH. reflexivity.
    + apply IH.
Qed.

Lemma Split_slash_app (a b : string) :
  strings.Split (a +:+ "/" +:+ b) "/"
  = (strings.Split a "/" ++ strings.Split b "/")%list.
Proof. apply split_scan_slash_app. Qed.

Lemma clean_elem_plain (rooted : bool) (stack : list string) (elem : string) :
  plain elem = true -> path.clean_elem rooted stack elem = elem :: stack.
Proof.
  unfold plain, path.clean_elem. intros Hp.
  apply negb_true_iff in Hp.
  apply orb_false_iff in Hp as [Hp Hdd].
  rewrite Hp, Hdd. reflexivity.
Qed.

Lemma fold_clean_plain (rooted : bool) (elems : list string) :
  forallb plain elems = true ->
  forall stack,
    fold_left (path.clean_elem rooted) elems stack = (rev elems ++ stack)%list.
Proof.
  induction elems as [|e elems IH]; intros Hall stack; [reflexivity|].
  cbn [forallb] in Hall. apply andb_prop in Hall as [He Hrest].
  cbn [fold_left]. rewrite clean_elem_plain by exact He.
  rewrite IH by exact Hrest. cbn [rev]. rewrite <- app_assoc. reflexivity.
Qed.

Lemma is_rooted_app (a b : string) :
  a <> "" -> path.is_rooted (a +:+ b) = path.is_rooted a.
Proof. destruct a; [congruence | reflexivity]. Qed.

(** Joining a non-empty base and a remainder cleans the remainder's
    elements on top of the base's. *)
Lemma Join_base_rest (base rest : string) :
  base <> "" ->
  path.Join [base; rest]
  = path.build (path.is_rooted base)
      (rev (fold_left (path.clean_elem (path.is_rooted base))
              (strings.Split rest "/") (rev (path.elements base)))).
Proof.
  intros Hb. cbn [path.Join].
  destruct (String.eqb_spec base ""); [contradiction|].
  cbn [strings.Join]. unfold path.Clean, path.elements.
  rewrite is_rooted_app by exact Hb.
  rewrite Split_slash_app, fold_left_app, rev_involutive. reflexivity.
Qed.

Lemma plain_not_rooted (rest : string) :
  forallb plain (strings.Split rest "/") = true -> path.is_rooted rest = false.
Proof.
  destruct rest as [|c rest]; [reflexivity|].
  unfold strings.Split. cbn [strings.split_scan path.is_rooted].
  rewrite prefix_slash. destruct (Ascii.eqb c "/"); [|reflexivity].
  cbn [forallb plain]. discriminate.
Qed.

(** A remainder of plain elements is appended to the base's elements as it
    is. *)
Lemma Join_base_plain (base rest : string) :
  forallb plain (strings.Split rest "/") = true ->
  path.Join [base; rest]
  = path.build (path.is_rooted base)
      (path.elements base ++ strings.Split rest "/").
Proof.
  intros Hp.
  destruct (String.eqb_spec base "") as [->|Hb].
  - cbn [path.Join String.eqb].
    destruct (String.eqb_spec rest "") as [->|Hr]; [discriminate Hp|].
    cbn [strings.Join].
    change (path.is_rooted "") with false.
    change (path.elements "") with (@nil string).
    unfold path.Clean, path.elements.
    rewrite (plain_not_rooted rest Hp).
    rewrite fold_clean_plain by exact Hp.
    rewrite app_nil_r, rev_involutive. reflexivity.
  - rewrite Join_base_rest by exact Hb.
    rewrite fold_clean_plain by exact Hp.
    rewrite rev_app_distr, !rev_involutive. reflexivity.
Qed.

Example Join_sandbox_items :
  path.Join ["/iii/sierra-api/v1/"; "items/1000004"] = "/iii/sierra-api/v1/items/1000004"
  /\ path.elements "/iii/sierra-api/v1/" = ["iii"; "sierra-api"; "v1"]
  /\ strings.Split "items/1000004" "/" = ["items"; "1000004"].
Proof. repeat split. Qed.

Section RawRewriter.

Context `{Platform}.

Lemma setAuthorizationHeaders_Authorization (nr : Request)
    (or : original_request) (t : string) :
  ReqHeader (setAuthorizationHeaders nr or t) !! "Authorization"
  = Some (default [] (ReqHeader nr !! "Authorization") ++ ["Bearer " +:+ t])%list.
Proof.
  unfold setAuthorizationHeaders.
  match goal with |- context [if ?c then _ else _] => destruct c end;
    unfold Request_Header_Add, Header_Add;
    cbn [ReqHeader Request_with_Header];
    rewrite lookup_insert_ne by discriminate;
    rewrite lookup_insert_ne by discriminate;
    rewrite lookup_insert_eq; reflexivity.
Qed.

Lemma setAuthorizationHeaders_URL (nr : Request) (or : original_request)
    (t : string) :
  ReqURL (setAuthorizationHeaders nr or t) = ReqURL nr.
Proof.
  unfold setAuthorizationHeaders.
  match goal with |- context [if ?c then _ else _] => destruct c end; reflexivity.
Qed.

(** C9, as the code has it: the rewritten URL is the parsed base with its
    path replaced by [path.Join] of the base path and the inbound path after
    ["/raw/"], and its query replaced by the inbound query string, byte for
    byte.  [path.Join] cleans the result: when every element of the
    remainder is a plain name (not empty, not [.] and not [..]) the
    elements follow those of the base unchanged. *)
Theorem rawRewriter_URL (r : Request) (token : string) (base : URL)
    (rest : string) :
  url_Parse apiURL = Some base ->
  strings.slice_from (String.length "/raw/") (Path (ReqURL r)) = Some rest ->
  exists out lines,
    rawRewriter r token = RawForward out lines
    /\ Scheme (ReqURL out) = Scheme base
    /\ Host (ReqURL out) = Host base
    /\ RawQuery (ReqURL out) = RawQuery (ReqURL r)
    /\ Path (ReqURL out) = path.Join [Path base; rest]
    /\ (forallb plain (strings.Split rest "/") = true ->
        Path (ReqURL out)
        = path.build (path.is_rooted (Path base))
            (path.elements (Path base) ++ strings.Split rest "/")).
Proof.
  intros Hparse Hrest. unfold rawRewriter. rewrite Hparse, Hrest.
  eexists _, _. split; [reflexivity|].
  rewrite setAuthorizationHeaders_URL. cbn.
  repeat split. intros Hp. apply Join_base_plain, Hp.
Qed.

(** C10: with a sentinel token the raw proxy still rewrites the request and
    hands it on: the result is the rewritten request, never an error, its
    URL is the one it would be for any other token, and the value
    ["Bearer uninitialized"], or ["Bearer "] for the empty token, is added
    to its Authorization header; the condition is only logged. *)
Theorem rawRewriter_sentinel_token (r : Request) (token : string) (base : URL)
    (rest : string) :
  url_Parse apiURL = Some base ->
  strings.slice_from (String.length "/raw/") (Path (ReqURL r)) = Some rest ->
  token = "uninitialized" \/ token = "" ->
  exists out lines,
    rawRewriter r token = RawForward out lines
    /\ ReqURL out
       = URL_with_RawQuery (URL_with_Path base (path.Join [Path base; rest]))
           (RawQuery (ReqURL r))
    /\ ReqHeader out !! "Authorization"
       = Some (default [] (ReqHeader r !! "Authorization") ++ ["Bearer " +:+ token])%list
    /\ lines
       = (logIfVerbose
            (LogText (if String.eqb token ""
                      then "Error at /raw/ handler, token creation failed."
                      else "Error at /raw/ handler, token not yet generated."))
          ++ logIfVerbose (LogText "Sending proxied request:")
          ++ logIfVerbose (LogRequest out))%list.
Proof.
  intros Hparse Hrest Htok. unfold rawRewriter. rewrite Hparse, Hrest.
  eexists _, _. split; [reflexivity|].
  rewrite setAuthorizationHeaders_URL, setAuthorizationHeaders_Authorization.
  split; [reflexivity|]. split; [reflexivity|].
  destruct Htok as [-> | ->]; cbn [String.eqb Ascii.eqb Bool.eqb];
    rewrite ?app_nil_r; reflexivity.
Qed.

End RawRewriter.

Lemma rawRewriter_URL_witness :
  exists out lines,
    @rawRewriter Worked.platform (Worked.get "/raw/items/1000004" "fields=default") "tok1"
    = RawForward out lines
    /\ Scheme (ReqURL out) = "https"
    /\ Host (ReqURL out) = "sandbox.iii.com"
    /\ RawQuery (ReqURL out) = "fields=default"
    /\ Path (ReqURL out) = path.Join ["/iii/sierra-api/v1/"; "items/1000004"]
    /\ (forallb plain (strings.Split "items/1000004" "/") = true ->
        Path (ReqURL out)
        = path.build (path.is_rooted "/iii/sierra-api/v1/")
            (path.elements "/iii/sierra-api/v1/" ++ strings.Split "items/1000004" "/")).
Proof.
  apply (@rawRewriter_URL Worked.platform
           (Worked.get "/raw/items/1000004" "fields=default") "tok1"
           Worked.base "items/1000004"); reflexivity.
Defined.

(** C9 as stated fails: the trailing slash of [/raw/items/] is dropped, and
    the elements [items] and [..] of [/raw/items/../token] do not reach the
    outbound path. *)
Lemma rawRewriter_path_cleaned :
  (exists out lines,
     @rawRewriter Worked.platform (Worked.get "/raw/items/" "fields=default") "tok1"
     = RawForward out lines
     /\ Path (ReqURL out) = "/iii/sierra-api/v1/items"
     /\ Path (ReqURL out) <> Path Worked.base +:+ "items/")
  /\ (exists out lines,
        @rawRewriter Worked.platform (Worked.get "/raw/items/../token" "") "tok1"
        = RawForward out lines
        /\ Path (ReqURL out) = "/iii/sierra-api/v1/token"
        /\ Path (ReqURL out) <> Path Worked.base +:+ "items/../token"
        /\ strings.Split (Path (ReqURL out)) "/"
           <> (path.elements (Path Worked.base) ++ strings.Split "items/../token" "/")%list).
Proof.
  split.
  - eexists _, _. split; [reflexivity|]. split; [reflexivity | discriminate].
  - eexists _, _. split; [reflexivity|]. split; [reflexivity|].
    split; discriminate.
Qed.

Lemma rawRewriter_sentinel_token_witness :
  exists out lines,
    @rawRewriter Worked.platform (Worked.get "/raw/items/1000004" "") "uninitialized"
    = RawForward out lines
    /\ ReqURL out
       = URL_with_RawQuery
           (URL_with_Path Worked.base (path.Join [Path Worked.base; "items/1000004"])) ""
    /\ ReqHeader out !! "Authorization" = Some ([] ++ ["Bearer uninitialized"])%list
    /\ lines
       = (@logIfVerbose Worked.platform
            (LogText "Error at /raw/ handler, token not yet generated.")
          ++ @logIfVerbose Worked.platform (LogText "Sending proxied request:")
          ++ @logIfVerbose Worked.platform (LogRequest out))%list.
Proof.
  apply (@rawRewriter_sentinel_token Worked.platform
           (Worked.get "/raw/items/1000004" "") "uninitialized"
           Worked.base "items/1000004"); [reflexivity | reflexivity | left; reflexivity].
Defined.

Example rawRewriter_empty_token :
  exists out lines,
    @rawRewriter Worked.platform (Worked.get "/raw/items/1000004" "") "" = RawForward out lines
    /\ ReqHeader out !! "Authorization" = Some ["Bearer "]
    /\ ReqHeader out !! "User-Agent" = Some ["Tyro"]
    /\ ReqHeader out !! "X-Forwarded-For" = Some ["10.0.0.7"].
Proof. eexists _, _. repeat split. Qed.

(** *** Executions *)

Lemma credential_quiet (l l0 : list event) :
  Forall quiet l -> credential (l ++ l0) = credential l0.
Proof.
  induction 1 as [|e l He _ IH]; [reflexivity|].
  destruct e; cbn in *; done.
Qed.

Lemma log_ok_quiet (l l0 : list event) :
  Forall quiet l -> log_ok l0 -> log_ok (l ++ l0).
Proof.
  induction 1 as [|e l He _ IH]; intros Hok; [assumption|].
  destruct e; cbn in *; try done; split; auto.
Qed.

Lemma last_reply_quiet (l l0 : list event) :
  Forall quiet l -> last_reply (l ++ l0) = last_reply l0.
Proof.
  induction 1 as [|e l He _ IH]; [reflexivity|].
  destruct e; cbn in *; done.
Qed.

Lemma in_flight_quiet (l l0 : list event) :
  Forall quiet l -> in_flight (l ++ l0) = in_flight l0.
Proof.
  induction 1 as [|e l He _ IH]; [reflexivity|].
  destruct e; cbn in *; done.
Qed.

Section Executions.

Context `{Platform}.


Lemma exec_log (a : action) (w w' : world) :
  exec a w = Some w' -> exists l, log w' = (l ++ log w)%list.
Proof.
  intros Hexec. destruct a; exec_cases Hexec; cbn;
    solve [ by exists [] | by eexists [_] | by eexists [_; _] | by eexists [_; _; _] ].
Qed.

Lemma invariant_init : invariant init.
Proof.
  split; cbn; try done. intros c Hc. by simplify_eq.
Qed.

(** A step of a handler, a timer or [main] that only adds quiet events. *)
Lemma invariant_quiet (w w' : world) (l : list event) :
  invariant w -> exited w = false -> mainG w' = mainG w ->
  token w' = token w -> tokenerG w' = tokenerG w -> interims w' = interims w ->
  log w' = (l ++ log w)%list -> Forall quiet l ->
  invariant w'.
Proof.
  intros [Hmain Hlog Hfl Hrep Hfail Htok Hserv Hint] Hex Em Et Eg Ei El Hq.
  split; rewrite ?Em, ?Et, ?Eg, ?Ei, ?El, ?credential_quiet, ?in_flight_quiet, ?last_reply_quiet by done; auto.
  by apply log_ok_quiet.
Qed.

(** A token handed over on [tokenChan] is the credential of the log. *)
Lemma invariant_get (w : world) (h : nat) (from : server) (t : string) :
  invariant w -> serve_token from w = Some t ->
  invariant (record (EvGet h from t) w).
Proof.
  intros [Hmain Hlog Hfl Hrep Hfail Htok Hserv Hint] Hs.
  split; cbn; auto.
  split; [assumption|]. intros c Hc.
  destruct from as [|i]; cbn in Hs.
  - destruct (tokenerG w); simplify_eq. by apply Htok.
  - destruct (interims w !! i) as [[]|] eqn:Hi; simplify_eq.
    eapply Hserv; eauto.
Qed.

Lemma send_refresh_frame (s : sender) (w w1 : world) :
  send_refresh s w = Some w1 ->
  exited w1 = exited w /\ token w1 = token w /\ tokenerG w1 = tokenerG w
  /\ interims w1 = interims w /\ log w1 = log w.
Proof.
  unfold send_refresh. intros Hs. repeat case_match; simplify_eq; done.
Qed.

Lemma invariant_exec (a : action) (w w' : world) :
  exec a w = Some w' -> invariant w -> invariant w'.
Proof.
  intros Hexec Hinv.
  assert (Hex : exited w = false).
  { unfold exec in Hexec. destruct (exited w); [discriminate | reflexivity]. }
  destruct a.
  - (* go tokener() *)
    exec_top Hexec. assert (Hex : exited w = false) by assumption.
    destruct Hinv as [Hmain Hlog Hfl Hrep Hfail Htok Hserv Hint].
    match goal with Hm : mainG w = MGo |- _ =>
      specialize (Hmain Hm); rewrite Hmain in * end.
    split; cbn; auto; try done.
    intros Hc. by specialize (Hfail Hc).
  - (* refresh begins *)
    unfold exec in Hexec. rewrite Hex in Hexec.
    destruct (tokenerG w) eqn:Hg; try discriminate.
    apply fmap_Some in Hexec as (w1 & Hs & ->).
    destruct Hinv as [Hmain Hlog Hfl Hrep Hfail Htok Hserv Hint].
    rewrite Hg in *.
    assert (Hm1 : mainG w1 <> MGo).
    { unfold send_refresh in Hs. repeat case_match; simplify_eq; cbn; try done.
      all: intros Hm; by specialize (Hmain Hm). }
    apply send_refresh_frame in Hs as (E1 & E2 & E3 & E4 & E5).
    assert (Hcred : credential (log w) = Some (token w)).
    { destruct (credential (log w)) as [c|] eqn:Hc.
      - by rewrite (Htok c).
      - by specialize (Hfail eq_refl). }
    assert (Hsv : forall c j old, credential (log w) = Some c ->
              (interims w ++ [ISpawned])%list !! j = Some (IServing old) -> old = c).
    { intros c j old Hc Hj. apply lookup_app_Some in Hj as [Hj | [_ Hj]].
      - eapply Hserv; eauto.
      - apply list_lookup_singleton_Some in Hj as [_ ?]. done. }
    unfold tokener_refresh. destruct (url_Parse apiURL).
    + split; cbn; rewrite ?E1, ?E2, ?E3, ?E4, ?E5; auto; try done; try lia.
      * rewrite Hcred. done.
      * intros _ j p Hj Hne. apply lookup_app_Some in Hj as [Hj | [Hge Hj]].
        -- by apply (Hint Hex j).
        -- apply list_lookup_singleton_Some in Hj as [Hj _]. lia.
    + split; cbn; rewrite ?E1, ?E2, ?E3, ?E4, ?E5, ?Hg; auto; done.
  - (* oldToken := token *)
    exec_top Hexec. assert (Hex : exited w = false) by assumption.
    destruct Hinv as [Hmain Hlog Hfl Hrep Hfail Htok Hserv Hint].
    split; cbn; auto; inv_field Hmain Hfail.
    + intros c j old Hc Hj.
      apply list_lookup_insert_Some in Hj as [(-> & Hj & _) | [_ Hj]].
      * simplify_eq. by apply Htok.
      * eapply Hserv; eauto.
    + intros _ j p Hj.
      apply list_lookup_insert_Some in Hj as [(-> & <- & _) | [_ Hj]].
      * match goal with Hi : interims w !! _ = Some ISpawned |- _ =>
          specialize (Hint Hex _ _ Hi) end.
        destruct (tokenerG w); cbn in *; try done.
        -- intros Hne. by specialize (Hint Hne).
        -- intros Hne. by specialize (Hint Hne).
        -- destruct (Nat.eqb j i); [by destruct Hint | done].
      * by apply Hint.
  - (* a token is handed over *)
    unfold exec in Hexec. rewrite Hex in Hexec.
    destruct (serve_token from w) as [t|] eqn:Hs; [|discriminate].
    pose proof (invariant_get w h from t Hinv Hs) as Hinv1.
    unfold receive_token in Hexec.
    repeat case_match; simplify_eq.
    all: first
      [ eapply (invariant_quiet _ _ [_]); [exact Hinv1 | done | done | done | done | done | done |];
        by repeat constructor
      | eapply (invariant_quiet _ _ []); [exact Hinv1 | done | done | done | done | done | done |];
        by repeat constructor ].
  - (* the token call returns *)
    exec_top Hexec. assert (Hex : exited w = false) by assumption.
    destruct Hinv as [Hmain Hlog Hfl Hrep Hfail Htok Hserv Hint].
    match goal with Hg : tokenerG w = TDo _ |- _ => rewrite Hg in * end.
    unfold tokener_reply.
    repeat case_match; split; cbn; auto; inv_field Hmain Hfail.
    intros responseJSON ?. simplify_eq. unfold fetched. repeat f_equal.
    match goal with Hs : negb _ = false |- _ => apply negb_false_iff in Hs end.
    by apply Z.eqb_eq.
  - (* stopIntrim <- true *)
    exec_top Hexec. assert (Hex : exited w = false) by assumption.
    destruct Hinv as [Hmain Hlog Hfl Hrep Hfail Htok Hserv Hint].
    match goal with Hg : tokenerG w = TStop _ _ |- _ => rewrite Hg in * end.
    split; cbn; auto; inv_field Hmain Hfail.
    + intros c j old Hc Hj.
      apply list_lookup_insert_Some in Hj as [(-> & Hj & _) | [_ Hj]]; [done|].
      eapply Hserv; eauto.
    + intros _ j p Hj.
      apply list_lookup_insert_Some in Hj as [(-> & <- & _) | [Hne Hj]].
      * rewrite Nat.eqb_refl. by left.
      * destruct (Nat.eqb_spec j i); [congruence|]. by apply (Hint Hex j).
  - (* close(stopIntrim) *)
    exec_top Hexec. assert (Hex : exited w = false) by assumption.
    destruct Hinv as [Hmain Hlog Hfl Hrep Hfail Htok Hserv Hint].
    split; cbn; auto; inv_field Hmain Hfail.
    + intros c j old Hc Hj.
      apply list_lookup_insert_Some in Hj as [(-> & Hj & _) | [_ Hj]]; [done|].
      eapply Hserv; eauto.
    + intros _ j p Hj.
      apply list_lookup_insert_Some in Hj as [(-> & <- & _) | [Hne Hj]].
      * destruct (tokenerG w); cbn; try done. case_match; [by right | done].
      * by apply Hint.
  - (* token = responseJSON.AccessToken *)
    exec_top Hexec. assert (Hex : exited w = false) by assumption.
    destruct Hinv as [Hmain Hlog Hfl Hrep Hfail Htok Hserv Hint].
    match goal with Hg : tokenerG w = TWait _ _ |- _ => rewrite Hg in * end.
    split; cbn; auto; inv_field Hmain Hfail.
    + split; [assumption|]. eexists. split; [by apply Hrep | reflexivity].
    + intros c Hc. by simplify_eq.
    + intros c j old _ Hj. specialize (Hint Hex _ _ Hj). cbn in Hint.
      case_match; [destruct Hint|]; done.
    + intros _ j p Hj. specialize (Hint Hex _ _ Hj). cbn in Hint.
      destruct (Nat.eqb_spec j i) as [->|]; [congruence | done].
  - (* time.Sleep returns *)
    exec_top Hexec. assert (Hex : exited w = false) by assumption.
    eapply (invariant_quiet _ _ []); [exact Hinv | done..].
  - (* a request is accepted *)
    exec_top Hexec. assert (Hex : exited w = false) by assumption.
    eapply (invariant_quiet _ _ []); [exact Hinv | done..].
  - (* the item call returns *)
    exec_top Hexec.
    all: eapply (invariant_quiet _ _ [_]); [exact Hinv | done | done | done | done | done | done |].
    all: by repeat constructor.
Qed.

Lemma invariant_run (acts : list action) : forall (w w' : world),
  run acts w = Some w' -> invariant w -> invariant w'.
Proof.
  induction acts as [|a acts IH]; intros w w' Hrun Hinv; cbn in Hrun.
  - by simplify_eq.
  - destruct (exec a w) as [w1|] eqn:Hexec; [|discriminate].
    eapply IH; [exact Hrun|]. by eapply invariant_exec.
Qed.


Lemma invariant_reachable (acts : list action) (w : world) :
  run acts init = Some w -> invariant w.
Proof. intros Hrun. eapply invariant_run; [exact Hrun | apply invariant_init]. Qed.

(** **** What [get] returns *)





(** **** Calls to the token endpoint *)

(** C2, as the code has it: at most one call to the token endpoint is in
    flight at any instant; while [tokener] is not back at its select, in
    particular while the call is in flight, no send on [refreshTokenChan] is
    received, so the sender stays at its send; and a send that is received
    finds no call in flight and begins a refresh of its own. *)
Theorem one_token_call_in_flight (acts : list action) (w : world) :
  run acts init = Some w ->
  (0 <= in_flight (log w) <= 1)%Z
  /\ (forall s, tokenerG w <> TSelect -> exec (ARefresh s) w = None)
  /\ (forall s, in_flight (log w) = 1%Z -> exec (ARefresh s) w = None)
  /\ (forall s w', exec (ARefresh s) w = Some w' ->
        in_flight (log w) = 0%Z
        /\ refreshes (log w') = s :: refreshes (log w)
        /\ (exited w' = false ->
            log w' = EvTokenDo :: EvRefresh s (token w) :: log w
            /\ in_flight (log w') = 1%Z)).
Proof.
  intros Hrun. apply invariant_reachable in Hrun as [_ _ Hfl _ _ _ _ _].
  assert (Hblocked : forall s, tokenerG w <> TSelect -> exec (ARefresh s) w = None).
  { intros s Hg. unfold exec. destruct (exited w); [reflexivity|].
    destruct (tokenerG w); done. }
  split; [|split; [|split]].
  - rewrite Hfl. destruct (tokenerG w); lia.
  - exact Hblocked.
  - intros s H1. apply Hblocked. intros Hg. rewrite Hg in Hfl. lia.
  - intros s w' Hexec. unfold exec in Hexec.
    destruct (exited w); [discriminate|].
    destruct (tokenerG w) eqn:Hg; try discriminate.
    apply fmap_Some in Hexec as (w1 & Hs & ->).
    apply send_refresh_frame in Hs as (E1 & E2 & E3 & E4 & E5).
    split; [exact Hfl|].
    unfold tokener_refresh. destruct (url_Parse apiURL); cbn; rewrite E5, ?E2.
    + split; [reflexivity|]. intros _. split; [reflexivity | lia].
    + split; [reflexivity|]. discriminate.
Qed.


(** **** After a failed refresh *)

Lemma exec_returned (a : action) (w w' : world) :
  exec a w = Some w' -> tokenerG w = TReturned ->
  tokenerG w' = TReturned /\ refreshes (log w') = refreshes (log w)
  /\ in_flight (log w') = in_flight (log w).
Proof.
  intros Hexec Hg. destruct a; exec_cases Hexec; cbn; try done; congruence.
Qed.

Lemma exec_returned_trigger (a : action) (w w' : world) (h : nat)
    (resp : Response) :
  exec a w = Some w' -> tokenerG w = TReturned ->
  handlers w !! h = Some (HStatusTrigger resp) ->
  handlers w' !! h = Some (HStatusTrigger resp).
Proof.
  intros Hexec Hg Hh.
  destruct a; exec_cases Hexec; cbn; try done; try congruence; handler_lookup; done.
Qed.

Lemma run_returned (acts : list action) : forall (w w' : world),
  run acts w = Some w' -> tokenerG w = TReturned ->
  tokenerG w' = TReturned /\ refreshes (log w') = refreshes (log w)
  /\ in_flight (log w') = in_flight (log w)
  /\ forall h resp, handlers w !! h = Some (HStatusTrigger resp) ->
       handlers w' !! h = Some (HStatusTrigger resp).
Proof.
  induction acts as [|a acts IH]; intros w w' Hrun Hg; cbn in Hrun.
  - by simplify_eq.
  - destruct (exec a w) as [w1|] eqn:Hexec; [|discriminate].
    destruct (exec_returned _ _ _ Hexec Hg) as (Hg1 & Er & Ef).
    destruct (IH _ _ Hrun Hg1) as (Hg' & Er' & Ef' & Hh).
    repeat split; [assumption | congruence | congruence |].
    intros h resp Hw. apply Hh. by eapply exec_returned_trigger.
Qed.

Lemma item_401 (h : nat) (entries : option (list responseJSON.Entry))
    (w w' : world) :
  exec (AItemReply h (ItemResponse 401 entries)) w = Some w' ->
  exists resp,
    resp = http_Error "Token is out of date, or is refreshing. Try request again."
             StatusInternalServerError
    /\ log w' = EvRespond h resp :: log w
    /\ handlers w' !! h = Some (HStatusTrigger resp)
    /\ tokenerG w' = tokenerG w.
Proof.
  intros Hexec. unfold exec in Hexec.
  destruct (exited w); [discriminate|].
  destruct (handlers w !! h) as [[]|] eqn:Hh; try discriminate.
  cbn in Hexec. simplify_eq. eexists. split; [reflexivity|]. cbn.
  split; [reflexivity|]. split; [|reflexivity].
  apply list_lookup_insert_eq. by eapply lookup_lt_Some.
Qed.

(** C3: once a refresh has failed, [tokener] has returned for good: no send
    on [refreshTokenChan] is received any more and no refresh begins; a
    status handler that then meets a 401 from the item endpoint writes its
    500 response and stays at its send on [refreshTokenChan] for ever. *)
Theorem failed_refresh_ends_tokener (acts : list action) (w w1 : world)
    (reply : TokenReply) :
  run acts init = Some w ->
  refresh_failed reply = true ->
  exec (ATokenReply reply) w = Some w1 ->
  tokenerG w1 = TReturned
  /\ forall acts' w2, run acts' w1 = Some w2 ->
       tokenerG w2 = TReturned
       /\ refreshes (log w2) = refreshes (log w1)
       /\ in_flight (log w2) = 0%Z
       /\ (forall s, exec (ARefresh s) w2 = None)
       /\ forall h entries w3,
            exec (AItemReply h (ItemResponse 401 entries)) w2 = Some w3 ->
            exists resp,
              StatusCode resp = StatusInternalServerError
              /\ log w3 = EvRespond h resp :: log w2
              /\ forall acts'' w4, run acts'' w3 = Some w4 ->
                   handlers w4 !! h = Some (HStatusTrigger resp).
Proof.
  intros Hrun Hfailed Hexec.
  assert (Hinv1 : invariant w1).
  { eapply invariant_exec; [exact Hexec|]. by eapply invariant_reachable. }
  assert (Hg1 : tokenerG w1 = TReturned).
  { unfold exec in Hexec. destruct (exited w); [discriminate|].
    destruct (tokenerG w); try discriminate. simplify_eq.
    unfold tokener_reply. destruct reply as [|status [responseJSON|]]; cbn in *;
      [done | | by destruct (status =? 200)%Z].
    rewrite orb_false_r in Hfailed. by rewrite Hfailed. }
  split; [exact Hg1|].
  intros acts' w2 Hrun2.
  destruct (run_returned _ _ _ Hrun2 Hg1) as (Hg2 & Er & Ef & _).
  split; [exact Hg2|]. split; [exact Er|]. split.
  { rewrite Ef, (inv_in_flight _ Hinv1), Hg1. reflexivity. }
  split.
  { intros s. unfold exec. destruct (exited w2); [reflexivity|]. by rewrite Hg2. }
  intros h entries w3 H401.
  apply item_401 in H401 as (resp & -> & El & Hh & Hg3).
  eexists (http_Error _ _). split; [reflexivity|]. split; [exact El|].
  intros acts'' w4 Hrun4.
  eapply run_returned; [exact Hrun4 | congruence | exact Hh].
Qed.

(** **** A 401 from the item endpoint *)






(** **** What a failed refresh leaves behind *)

(** Once [tokener] has returned, the interim goroutines stay as they are. *)
Lemma exec_returned_interims (a : action) (w w' : world) (old : string) :
  exec a w = Some w' -> tokenerG w = TReturned ->
  (forall j p, interims w !! j = Some p -> p = IClosed \/ p = IServing old) ->
  token w' = token w
  /\ (forall j p, interims w' !! j = Some p -> p = IClosed \/ p = IServing old)
  /\ exists l, log w' = (l ++ log w)%list /\ Forall (eq old) (gets l).
Proof.
  intros Hexec Hg Hi.
  destruct a; exec_cases Hexec; cbn; try congruence;
    repeat match goal with
    | Hj : interims w !! _ = Some _ |- _ => apply Hi in Hj as [?|?]; simplify_eq
    end;
    (split; [reflexivity|]); (split; [assumption|]);
    first [ by exists []
          | eexists [_]; split; [reflexivity|]; by repeat constructor
          | eexists [_; _]; split; [reflexivity|]; by repeat constructor ].
Qed.

Lemma run_returned_interims (acts : list action) (old : string) :
  forall (w w' : world),
    run acts w = Some w' -> tokenerG w = TReturned ->
    (forall j p, interims w !! j = Some p -> p = IClosed \/ p = IServing old) ->
    token w' = token w
    /\ exists l, log w' = (l ++ log w)%list /\ Forall (eq old) (gets l).
Proof.
  induction acts as [|a acts IH]; intros w w' Hrun Hg Hi; cbn in Hrun.
  - simplify_eq. split; [done|]. exists []. by split.
  - destruct (exec a w) as [w1|] eqn:Hexec; [|discriminate].
    destruct (exec_returned_interims _ _ _ old Hexec Hg Hi) as (Et & Hi1 & l1 & El1 & Hg1).
    apply exec_returned in Hexec as (Hr1 & _); [|exact Hg].
    destruct (IH _ _ Hrun Hr1 Hi1) as (Et' & l & El & Hgl).
    split; [congruence|].
    exists (l ++ l1)%list. split; [by rewrite El, El1, app_assoc|].
    unfold gets in *. rewrite omap_app. by apply Forall_app.
Qed.

(** C1 fails on the code: when a refresh fails after its interim goroutine
    has read the token, the variable is set to the empty string but
    [tokener] returns, and every token received from then on is the old one,
    handed out by the interim goroutine that is never stopped. *)
Theorem failed_refresh_serves_old_token (acts : list action) (w w1 : world)
    (i : nat) (old : string) (reply : TokenReply) :
  run acts init = Some w ->
  tokenerG w = TDo i ->
  interims w !! i = Some (IServing old) ->
  refresh_failed reply = true ->
  exec (ATokenReply reply) w = Some w1 ->
  token w1 = ""
  /\ forall acts' w2, run acts' w1 = Some w2 ->
       token w2 = ""
       /\ exists l, log w2 = (l ++ log w1)%list /\ Forall (eq old) (gets l).
Proof.
  intros Hrun Hg Hi Hfailed Hexec.
  pose proof (invariant_reachable _ _ Hrun) as Hinv.
  unfold exec in Hexec. destruct (exited w) eqn:Hex; [discriminate|].
  rewrite Hg in Hexec. simplify_eq.
  assert (Ew : tokener_reply i reply w
               = record EvFailed (set_tokener TReturned
                   (set_token "" (record (EvTokenDone reply) w)))).
  { unfold tokener_reply. destruct reply as [|status [responseJSON|]]; cbn in *;
      [done | | by destruct (status =? 200)%Z].
    rewrite orb_false_r in Hfailed. by rewrite Hfailed. }
  rewrite Ew. split; [reflexivity|].
  intros acts' w2 Hrun2.
  destruct (run_returned_interims _ old _ _ Hrun2) as (Et & Hl); [reflexivity | |].
  - cbn. intros j p Hj.
    destruct (decide (j = i)) as [->|Hne]; [right; congruence | left].
    pose proof (inv_interims _ Hinv Hex _ _ Hj) as Hok.
    rewrite Hg in Hok. by apply Hok.
  - split; [by rewrite Et | exact Hl].
Qed.

End Executions.


(** **** Worked executions *)

Lemma failed_refresh_serves_old_token_witness :
  exists w w1,
    @run Worked.platform Worked.second_refresh_begins init = Some w
    /\ @exec Worked.platform (ATokenReply (TokenResponse 500 None)) w = Some w1
    /\ token w1 = ""
    /\ forall acts' w2, @run Worked.platform acts' w1 = Some w2 ->
         token w2 = ""
         /\ exists l, log w2 = (l ++ log w1)%list /\ Forall (eq "tok1") (gets l).
Proof.
  eexists _, _.
  split; [vm_compute; reflexivity|]. split; [vm_compute; reflexivity|].
  eapply (@failed_refresh_serves_old_token Worked.platform
            Worked.second_refresh_begins _ _ 1 "tok1" (TokenResponse 500 None));
    vm_compute; reflexivity.
Defined.

(** The same failure, seen by a status request: the handler receives
    ["tok1"], not the empty string, calls the item endpoint with it, and
    after the 401 stays at its send. *)
Example status_after_failed_refresh :
  exists w getItemStatus resp,
    @run Worked.platform
      (Worked.second_refresh_begins ++ [ATokenReply (TokenResponse 500 None)]
       ++ Worked.status_after_failure) init = Some w
    /\ token w = "" /\ tokenerG w = TReturned
    /\ gets (log w) = ["tok1"]
    /\ item_calls 0 (log w) = [getItemStatus]
    /\ Method getItemStatus = "GET"
    /\ ReqHeader getItemStatus !! "Authorization" = Some ["Bearer tok1"]
    /\ handlers w !! 0 = Some (HStatusTrigger resp)
    /\ StatusCode resp = 500%Z.
Proof.
  eexists _, _, _.
  repeat (split; [vm_compute; reflexivity|]).
  vm_compute; reflexivity.
Qed.

(** On a fresh start whose first refresh fails, what is received is
    ["uninitialized"]. *)
Example first_refresh_fails :
  exists w,
    @run Worked.platform
      [AGoTokener; ARefresh SMain; AInterimStart 0;
       ATokenReply TokenTransportError;
       AAccept (Worked.get "/status/b1234" ""); AServe (ByInterim 0) 0] init
    = Some w
    /\ token w = "" /\ gets (log w) = ["uninitialized"]
    /\ handlers w !! 0
       = Some (HReturned (http_Error "Token Error, token not yet created." 500)).
Proof.
  eexists.
  repeat (split; [vm_compute; reflexivity|]).
  vm_compute; reflexivity.
Qed.

(** When the interim goroutine runs its first statement only after the
    failure, it reads the empty string and hands that out. *)
Example first_refresh_fails_before_interim_starts :
  exists w,
    @run Worked.platform
      [AGoTokener; ARefresh SMain; ATokenReply TokenTransportError;
       AInterimStart 0;
       AAccept (Worked.get "/status/b1234" ""); AServe (ByInterim 0) 0] init
    = Some w
    /\ gets (log w) = [""]
    /\ handlers w !! 0
       = Some (HReturned (http_Error "Token Error, token creation failed." 500)).
Proof.
  eexists.
  repeat (split; [vm_compute; reflexivity|]).
  vm_compute; reflexivity.
Qed.

(** C2 as stated fails: a send on [refreshTokenChan] made while a refresh
    is outstanding is not dropped; it waits, and once the outstanding
    refresh has succeeded it is received and begins a third refresh. *)
Lemma trigger_during_refresh_begins_another :
  exists w1 w2 resp,
    @run Worked.platform Worked.trigger_during_refresh init = Some w1
    /\ tokenerG w1 = TDo 1
    /\ in_flight (log w1) = 1%Z
    /\ refreshes (log w1) = [STimer 0; SMain]
    /\ handlers w1 !! 0 = Some (HStatusTrigger resp)
    /\ @run Worked.platform Worked.second_refresh_succeeds w1 = Some w2
    /\ refreshes (log w2) = [SHandler 0; STimer 0; SMain]
    /\ tokenerG w2 = TDo 2
    /\ in_flight (log w2) = 1%Z
    /\ handlers w2 !! 0 = Some (HReturned resp).
Proof.
  eexists _, _, _.
  repeat (split; [vm_compute; reflexivity|]).
  vm_compute; reflexivity.
Qed.


Lemma one_token_call_in_flight_witness :
  exists w,
    @run Worked.platform Worked.trigger_during_refresh init = Some w
    /\ (0 <= in_flight (log w) <= 1)%Z
    /\ (forall s, tokenerG w <> TSelect -> @exec Worked.platform (ARefresh s) w = None)
    /\ (forall s, in_flight (log w) = 1%Z -> @exec Worked.platform (ARefresh s) w = None)
    /\ (forall s w', @exec Worked.platform (ARefresh s) w = Some w' ->
          in_flight (log w) = 0%Z
          /\ refreshes (log w') = s :: refreshes (log w)
          /\ (exited w' = false ->
              log w' = EvTokenDo :: EvRefresh s (token w) :: log w
              /\ in_flight (log w') = 1%Z)).
Proof.
  eexists. split; [vm_compute; reflexivity|].
  eapply (@one_token_call_in_flight Worked.platform Worked.trigger_during_refresh).
  vm_compute; reflexivity.
Defined.

Lemma failed_refresh_ends_tokener_witness :
  exists w w1,
    @run Worked.platform Worked.second_refresh_begins init = Some w
    /\ @exec Worked.platform (ATokenReply (TokenResponse 500 None)) w = Some w1
    /\ tokenerG w1 = TReturned
    /\ forall acts' w2, @run Worked.platform acts' w1 = Some w2 ->
         tokenerG w2 = TReturned
         /\ refreshes (log w2) = refreshes (log w1)
         /\ in_flight (log w2) = 0%Z
         /\ (forall s, @exec Worked.platform (ARefresh s) w2 = None)
         /\ forall h entries w3,
              @exec Worked.platform (AItemReply h (ItemResponse 401 entries)) w2 = Some w3 ->
              exists resp,
                StatusCode resp = StatusInternalServerError
                /\ log w3 = EvRespond h resp :: log w2
                /\ forall acts'' w4, @run Worked.platform acts'' w3 = Some w4 ->
                     handlers w4 !! h = Some (HStatusTrigger resp).
Proof.
  eexists _, _.
  split; [vm_compute; reflexivity|]. split; [vm_compute; reflexivity|].
  eapply (@failed_refresh_ends_tokener Worked.platform
            Worked.second_refresh_begins _ _ (TokenResponse 500 None));
    vm_compute; reflexivity.
Defined.

(** After the failure a status request is still served the old token,
    meets the 401, and its handler never gets past its send. *)
Example status_blocked_after_failure :
  exists w resp,
    @run Worked.platform
      (Worked.second_refresh_begins ++ [ATokenReply (TokenResponse 500 None)]
       ++ Worked.status_after_failure) init = Some w
    /\ handlers w !! 0 = Some (HStatusTrigger resp)
    /\ StatusCode resp = 500%Z
    /\ @exec Worked.platform (ARefresh (SHandler 0)) w = None.
Proof.
  eexists _, _.
  repeat (split; [vm_compute; reflexivity|]).
  vm_compute; reflexivity.
Qed.


(** The 401 of a handler that was served by [tokener] itself: its send is
    received and the second refresh begins. *)
Example upstream_401_then_refresh :
  exists w resp,
    @run Worked.platform
      (Worked.first_refresh "tok1"
       ++ [AAccept (Worked.get "/status/b1234" ""); AServe ByTokener 0;
           AItemReply 0 (ItemResponse 401 None); ARefresh (SHandler 0)]) init = Some w
    /\ handlers w !! 0 = Some (HReturned resp)
    /\ StatusCode resp = 500%Z
    /\ refreshes (log w) = [SHandler 0; SMain]
    /\ tokenerG w = TDo 1
    /\ length (item_calls 0 (log w)) = 1.
Proof.
  eexists _, _.
  repeat (split; [vm_compute; reflexivity|]).
  vm_compute; reflexivity.
Qed.

(** ** Further properties *)

(** *** Strings *)

Lemma string_app_nil_r (s : string) : s +:+ "" = s.
Proof.
  induction s as [|c s IH]; [reflexivity|].
  change (String c (s +:+ "") = String c s). by rewrite IH.
Qed.

Lemma string_app_assoc (a b c : string) : (a +:+ b) +:+ c = a +:+ (b +:+ c).
Proof.
  induction a as [|x a IH]; [reflexivity|].
  change (String x ((a +:+ b) +:+ c) = String x (a +:+ (b +:+ c))). by rewrite IH.
Qed.

Lemma string_app_length (a b : string) :
  String.length (a +:+ b) = String.length a + String.length b.
Proof.
  induction a as [|x a IH]; [reflexivity|].
  change (S (String.length (a +:+ b)) = S (String.length a) + String.length b).
  by rewrite IH.
Qed.

(** *** The record identifier *)

Lemma hd_split_scan_slash (s : string) : forall cur,
  exists pre rest,
    hd EmptyString (strings.split_scan "/" 0 cur s) = cur +:+ pre
    /\ s = pre +:+ rest
    /\ (rest = "" \/ exists rest', rest = String "/" rest')
    /\ ~ In "/"%char (list_ascii_of_string pre).
Proof.
  induction s as [|c s IH]; intros cur.
  - exists "", "". rewrite string_app_nil_r. cbn. auto.
  - cbn [strings.split_scan]. rewrite prefix_slash.
    destruct (Ascii.eqb_spec c "/") as [->|Hc].
    + exists "", (String "/" s). rewrite string_app_nil_r. cbn.
      repeat split; eauto.
    + destruct (IH (cur +:+ String c "")) as (pre & rest & Hhd & -> & Hrest & Hno).
      exists (String c pre), rest. rewrite Hhd, string_app_assoc.
      repeat split; [assumption|]. cbn. intros [?|?]; [congruence | done].
Qed.

(** X1: the record identifier of a status request is the part of the path
    right after the first eight bytes (["/status/"]) up to the next slash:
    it contains no slash, and what follows it in the path is nothing or
    begins with a slash.  A path shorter than eight bytes makes the slice
    expression panic. *)
Theorem bibID_is_first_segment (r : Request) :
  match bibID r with
  | Some id =>
    exists tail rest,
      strings.slice_from 8 (Path (ReqURL r)) = Some tail
      /\ tail = id +:+ rest
      /\ (rest = "" \/ exists rest', rest = String "/" rest')
      /\ ~ In "/"%char (list_ascii_of_string id)
  | None => String.length (Path (ReqURL r)) < 8
  end.
Proof.
  unfold bibID. change (String.length "/status/") with 8.
  destruct (strings.slice_from 8 (Path (ReqURL r))) as [tail|] eqn:Hs.
  - destruct (hd_split_scan_slash tail "") as (pre & rest & Hhd & -> & Hrest & Hno).
    exists (pre +:+ rest), rest. unfold strings.Split. rewrite Hhd. cbn. auto.
  - clear -Hs. revert Hs. generalize (Path (ReqURL r)). generalize 8.
    induction n as [|n IH]; intros [|c s] Hs; cbn in *; try discriminate; [lia|].
    apply IH in Hs. lia.
Qed.

Example bibID_examples :
  bibID (Worked.get "/status/b1234/holdings" "") = Some "b1234"
  /\ bibID (Worked.get "/status//b1234" "") = Some ""
  /\ bibID (Worked.get "/status" "") = None.
Proof. repeat split. Qed.

(** *** What [statusHandler] sends upstream, and when *)

Section StatusRequest.

Context `{Platform}.

Lemma sentinel_false (t : string) :
  sentinel t = false <-> t <> "uninitialized" /\ t <> "".
Proof.
  unfold sentinel. rewrite orb_false_iff, !String.eqb_neq. reflexivity.
Qed.

(** X2: [statusHandler] calls the item endpoint exactly when the token is not a
    sentinel, the record identifier is not empty and the [-url] flag
    parses.  The request is then a GET for the base path joined with
    [items], on the base's scheme and host; its query is encoded from
    values in which [bibIds] is the identifier and [deleted] is [false];
    and it has exactly three headers: the bearer token, the user agent
    [Tyro], and X-Forwarded-For, which is the first inbound X-Forwarded-For
    value when there is one and the host of the remote address otherwise.
    No other header of the inbound request is passed on. *)
Theorem statusHandler_upstream_request (r : Request) (token : string)
    (getItemStatus : Request) :
  statusHandler_prepare r token = StatusDo getItemStatus <->
  sentinel token = false
  /\ exists id base,
       bibID r = Some id /\ id <> ""
       /\ url_Parse apiURL = Some base
       /\ getItemStatus
          = {| Method := "GET";
               ReqURL :=
                 {| Scheme := Scheme base; Opaque := Opaque base; User := User base;
                    Host := Host base;
                    Path := path.Join [Path base; "items"];
                    RawQuery :=
                      Values_Encode
                        (<["deleted" := ["false"]]>
                           (<["bibIds" := [id]]>
                              (URL_Query
                                 (URL_with_Path base (path.Join [Path base; "items"])))));
                    Fragment := Fragment base |};
               ReqHeader :=
                 <["X-Forwarded-For" :=
                     [if String.eqb (Header_Get (ReqHeader r) "X-Forwarded-For") ""
                      then SplitHostPort_host (RemoteAddr r)
                      else Header_Get (ReqHeader r) "X-Forwarded-For"]]>
                   (<["User-Agent" := ["Tyro"]]>
                      (<["Authorization" := ["Bearer " +:+ token]]> ∅));
               RemoteAddr := "" |}.
Proof.
  unfold statusHandler_prepare, sentinel.
  destruct (String.eqb token "uninitialized"); [split; [done | by intros [? _]]|].
  destruct (String.eqb token ""); [split; [done | by intros [? _]]|].
  cbn [orb].
  destruct (bibID r) as [id|]; [|split; [done | by intros (_ & ? & ? & ? & _)]].
  destruct (String.eqb_spec id "") as [->|Hid].
  { split; [done|]. intros (_ & id & base & Hid & Hne & _). by simplify_eq. }
  destruct (url_Parse apiURL) as [base|];
    [|split; [done | by intros (_ & ? & ? & _ & _ & ? & _)]].
  assert (Hreq :
    setAuthorizationHeaders
      {| Method := "GET";
         ReqURL := URL_with_RawQuery
                     (URL_with_Path base (path.Join [Path base; ItemRequestEndpoint]))
                     (Values_Encode
                        (Values_Set
                           (Values_Set
                              (URL_Query
                                 (URL_with_Path base
                                    (path.Join [Path base; ItemRequestEndpoint])))
                              "bibIds" id) "deleted" "false"));
         ReqHeader := ∅; RemoteAddr := "" |} (OtherRequest r) token
    = {| Method := "GET";
         ReqURL :=
           {| Scheme := Scheme base; Opaque := Opaque base; User := User base;
              Host := Host base;
              Path := path.Join [Path base; "items"];
              RawQuery :=
                Values_Encode
                  (<["deleted" := ["false"]]>
                     (<["bibIds" := [id]]>
                        (URL_Query
                           (URL_with_Path base (path.Join [Path base; "items"])))));
              Fragment := Fragment base |};
         ReqHeader :=
           <["X-Forwarded-For" :=
               [if String.eqb (Header_Get (ReqHeader r) "X-Forwarded-For") ""
                then SplitHostPort_host (RemoteAddr r)
                else Header_Get (ReqHeader r) "X-Forwarded-For"]]>
             (<["User-Agent" := ["Tyro"]]>
                (<["Authorization" := ["Bearer " +:+ token]]> ∅));
         RemoteAddr := "" |}).
  { unfold setAuthorizationHeaders.
    destruct (String.eqb (Header_Get (ReqHeader r) "X-Forwarded-For") "");
      reflexivity. }
  rewrite Hreq. split.
  - intros [= <-]. split; [done|]. by exists id, base.
  - intros (_ & id' & base' & ? & _ & ? & ->). by simplify_eq.
Qed.

(** X3: a [-url] that does not parse ends the process from [statusHandler] only
    on a request that has a real token and a record identifier: with a
    sentinel token or an empty identifier the handler answers before it
    looks at the flag. *)
Theorem statusHandler_fatal_iff (r : Request) (token : string) :
  statusHandler_prepare r token = StatusFatal <->
  sentinel token = false
  /\ (exists id, bibID r = Some id /\ id <> "")
  /\ url_Parse apiURL = None.
Proof.
  unfold statusHandler_prepare, sentinel.
  destruct (String.eqb token "uninitialized"); [split; [done | by intros [? _]]|].
  destruct (String.eqb token ""); [split; [done | by intros [? _]]|].
  cbn [orb].
  destruct (bibID r) as [id|]; [|split; [done | by intros (_ & (? & ? & _) & _)]].
  destruct (String.eqb_spec id "") as [->|Hid].
  { split; [done|]. intros (_ & (id & Hid & Hne) & _). by simplify_eq. }
  destruct (url_Parse apiURL) as [base|]; [split; [done | by intros (_ & _ & ?)]|].
  split; [|done]. intros _. split; [done|]. split; [by exists id | done].
Qed.

End StatusRequest.

(** *** What [statusHandler] answers *)

(** X4: the handler answers 200 exactly when the item endpoint's status is not
    401 and its body decodes, whatever that status is: a 404 or a 500 whose
    body decodes is answered 200.  It sends on [refreshTokenChan] exactly
    when the status is 401.  A 200 carries one entry per upstream entry, in
    the same order, each with its location name unchanged. *)
Theorem statusHandler_finish_cases (reply : ItemReply) :
  (StatusCode (fst (statusHandler_finish reply)) = StatusOK <->
   exists status entries,
     reply = ItemResponse status (Some entries) /\ status <> 401%Z)
  /\ (StatusCode (fst (statusHandler_finish reply)) = StatusOK
      \/ StatusCode (fst (statusHandler_finish reply)) = StatusInternalServerError)
  /\ (snd (statusHandler_finish reply) = true <->
      exists entries, reply = ItemResponse 401 entries)
  /\ (forall status entries,
        reply = ItemResponse status (Some entries) -> status <> 401%Z ->
        exists out,
          Body (fst (statusHandler_finish reply)) = StatusJSON out
          /\ length out = length entries
          /\ forall i e, entries !! i = Some e ->
               exists o, out !! i = Some o
                         /\ o = newEntry e
                         /\ statusJSON.Location o = responseJSON.Location_Name e).
Proof.
  destruct reply as [|status [entries|]]; cbn.
  - split; [split; [done | by intros (? & ? & ? & _)]|].
    split; [by right|]. split; [split; [done | by intros (? & ?)]|]. done.
  - destruct (Z.eqb_spec status 401) as [->|Hs]; cbn.
    + split; [split; [done | by intros (? & ? & ? & ?); simplify_eq]|].
      split; [by right|]. split; [split; [by eexists | done]|].
      intros ? ? ? ?. by simplify_eq.
    + split; [split; [by eexists _, _ | done]|].
      split; [by left|].
      split; [split; [done | by intros (? & ?); simplify_eq]|].
      intros ? ? [= <- <-] _. eexists. split; [reflexivity|].
      split; [by rewrite length_map|].
      intros i e Hi. exists (newEntry e). rewrite list_lookup_fmap, Hi. done.
  - destruct (Z.eqb_spec status 401) as [->|Hs]; cbn.
    + split; [split; [done | by intros (? & ? & ? & ?)]|].
      split; [by right|]. split; [split; [by eexists | done]|]. done.
    + split; [split; [done | by intros (? & ? & ? & ?)]|].
      split; [by right|].
      split; [split; [done | by intros (? & ?); simplify_eq]|]. done.
Qed.

(** *** The call number, once more *)

Lemma newEntry_CallNumber (e : responseJSON.Entry) :
  statusJSON.CallNumber (newEntry e) = strip_markers (responseJSON.CallNumber e).
Proof.
  unfold newEntry. cbn [statusJSON.CallNumber].
  rewrite (Replace_all_two "|" "a") by discriminate.
  rewrite (Replace_all_two "|" "b") by discriminate.
  apply (strip_markers_scan_len (String.length (responseJSON.CallNumber e))). lia.
Qed.

Lemma strip_markers_head (c : ascii) (s : string) :
  exists d rest, strip_markers (String c s) = String d rest
                 /\ (d = c \/ d = " "%char).
Proof.
  destruct s as [|d s]; cbn [strip_markers]; [by eauto|].
  destruct (Ascii.eqb c "|" && (Ascii.eqb d "a" || Ascii.eqb d "b")); eauto.
Qed.

Lemma prefix_marker (x c : ascii) (s : string) :
  String.prefix (String "|" (String x "")) (String c s)
  = Ascii.eqb c "|"
    && match s with String d _ => Ascii.eqb d x | EmptyString => false end.
Proof.
  cbn [String.prefix].
  destruct (Ascii.ascii_dec "|" c) as [<-|Hc].
  - rewrite Ascii.eqb_refl. cbn [andb].
    destruct s as [|d s]; [reflexivity|]. cbn [String.prefix].
    destruct (Ascii.ascii_dec x d) as [<-|Hd].
    + rewrite Ascii.eqb_refl. by destruct s.
    + symmetry. apply Ascii.eqb_neq. congruence.
  - replace (Ascii.eqb c "|") with false; [reflexivity|].
    symmetry. apply Ascii.eqb_neq. congruence.
Qed.

Lemma strip_markers_two (c d : ascii) (s : string) :
  strip_markers (String c (String d s))
  = if Ascii.eqb c "|" && (Ascii.eqb d "a" || Ascii.eqb d "b")
    then String " " (strip_markers s)
    else String c (strip_markers (String d s)).
Proof. reflexivity. Qed.

Lemma occurs_cons (sub : string) (c : ascii) (s : string) :
  occurs sub (String c s) = String.prefix sub (String c s) || occurs sub s.
Proof. reflexivity. Qed.

Lemma strip_markers_clean_len (x : ascii) :
  x = "a"%char \/ x = "b"%char ->
  forall n s, String.length s <= n ->
    occurs (String "|" (String x "")) (strip_markers s) = false.
Proof.
  intros Hx. induction n as [|n IH]; intros s Hlen.
  - destruct s; [by destruct Hx as [-> | ->] | cbn in Hlen; lia].
  - destruct s as [|c t]; [by destruct Hx as [-> | ->]|].
    destruct t as [|d s'].
    { cbn [strip_markers]. rewrite occurs_cons, prefix_marker.
      rewrite andb_false_r. by destruct Hx as [-> | ->]. }
    cbn in Hlen. rewrite strip_markers_two.
    destruct (Ascii.eqb c "|" && (Ascii.eqb d "a" || Ascii.eqb d "b")) eqn:Hm.
    + rewrite occurs_cons, prefix_marker.
      change (Ascii.eqb " " "|") with false. cbn [andb orb].
      apply IH. lia.
    + rewrite occurs_cons, (IH (String d s')) by (cbn; lia).
      rewrite orb_false_r, prefix_marker.
      destruct (strip_markers_head d s') as (d' & rest & -> & Hd').
      destruct (Ascii.eqb_spec c "|") as [->|]; [|reflexivity]. cbn [andb] in *.
      apply orb_false_iff in Hm as [Hda Hdb].
      apply Ascii.eqb_neq in Hda, Hdb. apply Ascii.eqb_neq.
      destruct Hd' as [-> | ->]; destruct Hx as [-> | ->]; congruence.
Qed.

Lemma strip_markers_length (s : string) :
  String.length (strip_markers s) <= String.length s
  /\ forall c, String.length (strip_markers (String c s)) <= S (String.length s).
Proof.
  induction s as [|d s [IH1 IH2]]; [cbn; auto|].
  split; [apply IH2|]. intros c. rewrite strip_markers_two.
  destruct (Ascii.eqb c "|" && (Ascii.eqb d "a" || Ascii.eqb d "b")).
  - cbn [String.length]. lia.
  - cbn [String.length]. specialize (IH2 d). lia.
Qed.

(** X5: the call number that is emitted contains neither [|a] nor [|b] any
    more, also where removing one marker brings a bar next to a letter, and
    it is never longer than the upstream call number. *)
Theorem callNumber_has_no_marker (e : responseJSON.Entry) :
  occurs "|a" (statusJSON.CallNumber (newEntry e)) = false
  /\ occurs "|b" (statusJSON.CallNumber (newEntry e)) = false
  /\ String.length (statusJSON.CallNumber (newEntry e))
     <= String.length (responseJSON.CallNumber e).
Proof.
  rewrite newEntry_CallNumber. split; [|split].
  - eapply (strip_markers_clean_len "a"); [by left | reflexivity].
  - eapply (strip_markers_clean_len "b"); [by right | reflexivity].
  - apply strip_markers_length.
Qed.

Example callNumber_adjacent_markers :
  strip_markers "||ab|a|" = "| b |" /\ strip_markers "|a|b" = "  ".
Proof. split; reflexivity. Qed.

(** *** Headers *)

Section Headers.

Context `{Platform}.

(** [setAuthorizationHeaders] only adds: every value the new request had
    stays, in its place; one value is appended to each of Authorization,
    User-Agent and X-Forwarded-For and no other key is touched.  The value
    for X-Forwarded-For is the first X-Forwarded-For value of the original
    request when it has a non-empty one, and the host of its remote address
    otherwise.  Method, URL and remote address are not changed. *)
Lemma setAuthorizationHeaders_adds (nr : Request) (or : original_request)
    (t : string) :
  let out := setAuthorizationHeaders nr or t in
  let forwarded := Header_Get (ReqHeader (original nr or)) "X-Forwarded-For" in
  Method out = Method nr /\ ReqURL out = ReqURL nr /\ RemoteAddr out = RemoteAddr nr
  /\ ReqHeader out !! "Authorization"
     = Some (default [] (ReqHeader nr !! "Authorization") ++ ["Bearer " +:+ t])%list
  /\ ReqHeader out !! "User-Agent"
     = Some (default [] (ReqHeader nr !! "User-Agent") ++ ["Tyro"])%list
  /\ ReqHeader out !! "X-Forwarded-For"
     = Some (default [] (ReqHeader nr !! "X-Forwarded-For")
             ++ [if String.eqb forwarded ""
                 then SplitHostPort_host (RemoteAddr (original nr or))
                 else forwarded])%list
  /\ forall key,
       key <> "Authorization" -> key <> "User-Agent" -> key <> "X-Forwarded-For" ->
       ReqHeader out !! key = ReqHeader nr !! key.
Proof.
  intros out forwarded.
  assert (Hf : Header_Get
                 (ReqHeader
                    match or with
                    | SameRequest =>
                      Request_Header_Add
                        (Request_Header_Add nr "Authorization" ("Bearer " +:+ t))
                        "User-Agent" "Tyro"
                    | OtherRequest r => r
                    end) "X-Forwarded-For" = forwarded).
  { subst forwarded. destruct or; [|reflexivity].
    unfold Header_Get, Request_Header_Add, Header_Add. cbn.
    by rewrite !lookup_insert_ne by discriminate. }
  assert (Ha : RemoteAddr
                 match or with
                 | SameRequest =>
                   Request_Header_Add
                     (Request_Header_Add nr "Authorization" ("Bearer " +:+ t))
                     "User-Agent" "Tyro"
                 | OtherRequest r => r
                 end = RemoteAddr (original nr or)).
  { by destruct or. }
  subst out. unfold setAuthorizationHeaders. rewrite Hf, Ha.
  destruct (String.eqb forwarded "");
    unfold Request_Header_Add, Header_Add;
    cbn [ReqHeader Request_with_Header Method ReqURL RemoteAddr];
    (split; [reflexivity|]); (split; [reflexivity|]); (split; [reflexivity|]);
    (split; [|split; [|split]]);
    try (intros key ? ? ?);
    repeat (rewrite lookup_insert_eq || rewrite lookup_insert_ne by done);
    reflexivity.
Qed.



(** X6: [rawRewriter] ends the process exactly when the [-url] flag does not
    parse, whatever the request and the token, and panics exactly when the
    flag parses and the inbound path has fewer than five bytes. *)
Theorem rawRewriter_failures (r : Request) (token : string) :
  (rawRewriter r token = RawFatal <-> url_Parse apiURL = None)
  /\ (rawRewriter r token = RawPanic <->
      is_Some (url_Parse apiURL) /\ String.length (Path (ReqURL r)) < 5).
Proof.
  unfold rawRewriter. change (String.length "/raw/") with 5.
  assert (Hslice : forall n s,
            strings.slice_from n s = None <-> String.length s < n).
  { induction n as [|n IH]; intros [|c s]; cbn; try (split; [done | lia]).
    - split; [lia | done].
    - rewrite IH. lia. }
  destruct (url_Parse apiURL) as [base|].
  - destruct (strings.slice_from 5 (Path (ReqURL r))) as [rest|] eqn:Hs.
    + split; [done|]. split; [done|]. intros [_ Hlt].
      apply Hslice in Hlt. congruence.
    + split; [done|]. split; [|done]. intros _. split; [by eexists|].
      by apply Hslice.
  - split; [done|]. split; [done | by intros [[? ?] _]].
Qed.

(** X7: the request the raw proxy forwards keeps the method, the remote address
    and every header value of the inbound request in place: a client's own
    Authorization value stays in front of the bearer token, and an inbound
    X-Forwarded-For list is kept with its first value appended once
    more. *)
Theorem rawRewriter_keeps_inbound (r out : Request) (token : string)
    (lines : list logged) :
  rawRewriter r token = RawForward out lines ->
  Method out = Method r /\ RemoteAddr out = RemoteAddr r
  /\ (forall key values,
        ReqHeader r !! key = Some values ->
        exists added, ReqHeader out !! key = Some (values ++ added)%list)
  /\ (forall key,
        key <> "Authorization" -> key <> "User-Agent" -> key <> "X-Forwarded-For" ->
        ReqHeader out !! key = ReqHeader r !! key)
  /\ (forall first others,
        ReqHeader r !! "X-Forwarded-For" = Some (first :: others) -> first <> "" ->
        ReqHeader out !! "X-Forwarded-For" = Some (first :: others ++ [first])%list)
  /\ (Header_Get (ReqHeader r) "X-Forwarded-For" = "" ->
      ReqHeader out !! "X-Forwarded-For"
      = Some (default [] (ReqHeader r !! "X-Forwarded-For")
              ++ [SplitHostPort_host (RemoteAddr r)])%list).
Proof.
  unfold rawRewriter. intros Hraw.
  destruct (url_Parse apiURL) as [base|]; [|discriminate].
  destruct (strings.slice_from _ _) as [rest|]; [|discriminate].
  injection Hraw as <- _.
  match goal with |- context [setAuthorizationHeaders ?nr ?or ?t] =>
    pose proof (setAuthorizationHeaders_adds nr or t) as Happ;
    cbv zeta in Happ
  end.
  destruct Happ as (Hm & _ & Hr & Hauth & Hua & Hxff & Hother).
  cbn [original Request_with_URL ReqHeader RemoteAddr Method] in *.
  split; [exact Hm|]. split; [exact Hr|]. split; [|split; [exact Hother|split]].
  - intros key values Hk.
    destruct (decide (key = "Authorization")) as [->|];
      [rewrite Hauth, Hk; by eexists|].
    destruct (decide (key = "User-Agent")) as [->|];
      [rewrite Hua, Hk; by eexists|].
    destruct (decide (key = "X-Forwarded-For")) as [->|];
      [rewrite Hxff, Hk; by eexists|].
    exists []. rewrite app_nil_r, Hother by done. exact Hk.
  - intros first others Hk Hne. rewrite Hxff. unfold Header_Get. rewrite Hk. cbn.
    destruct (String.eqb_spec first ""); [contradiction | reflexivity].
  - intros Hget. rewrite Hxff, Hget. reflexivity.
Qed.

End Headers.

(** *** The CORS header *)

Section AccessControlProperties.

Variable TrimSpace : string -> string.

Lemma allow_origin_fold (origin : string) (pieces : list string) :
  forall h,
    fold_left (allow_origin TrimSpace origin) pieces h
    = if negb (String.eqb origin "")
         && existsb (fun piece => String.eqb (TrimSpace piece) origin) pieces
      then Header_Set h "Access-Control-Allow-Origin" origin
      else h.
Proof.
  induction pieces as [|piece pieces IH]; intros h.
  - cbn. by rewrite andb_false_r.
  - cbn [fold_left existsb]. rewrite IH. unfold allow_origin.
    destruct (String.eqb_spec (TrimSpace piece) origin) as [->|Hne].
    + rewrite andb_true_r. cbn [orb]. rewrite andb_true_r.
      destruct (negb (String.eqb origin "")); [|reflexivity].
      destruct (existsb _ pieces); [|reflexivity].
      unfold Header_Set. by rewrite insert_insert_eq.
    + rewrite andb_false_r. reflexivity.
Qed.


Lemma accessControlAllowOrigin_eq (headerACAO : string) (r : Request)
    (h : Header) :
  accessControlAllowOrigin TrimSpace headerACAO r h
  = if String.eqb headerACAO "*" then <["Access-Control-Allow-Origin" := ["*"]]> h
    else if String.eqb headerACAO "" then h
    else if negb (String.eqb (Header_Get (ReqHeader r) "Origin") "")
            && existsb (fun piece =>
                          String.eqb (TrimSpace piece) (Header_Get (ReqHeader r) "Origin"))
                 (strings.Split headerACAO ";")
         then <["Access-Control-Allow-Origin" := [Header_Get (ReqHeader r) "Origin"]]> h
         else h.
Proof.
  unfold accessControlAllowOrigin.
  destruct (String.eqb headerACAO "*"); [reflexivity|].
  destruct (String.eqb headerACAO ""); [reflexivity|].
  cbn [negb]. apply allow_origin_fold.
Qed.

(** X8: only the 200 response of a status request can carry
    Access-Control-Allow-Origin.  The 400 and 500 responses are written by
    [http.Error] on branches that return before the CORS block, so they
    never get the header, whatever [-acaoheader] is.  On the 200 response:
    with [-acaoheader] equal to [*] the header is [*]; with the empty flag
    it is not set; with a list, it is set exactly when the request has a
    non-empty Origin that equals one of the pieces between semicolons
    after trimming, and its value is then that Origin: no other origin,
    and no wildcard, is ever sent. *)
Theorem accessControlAllowOrigin_cases `{Platform} (headerACAO : string)
    (r : Request) (token : string) (reply : ItemReply) (h : Header) :
  let origin := Header_Get (ReqHeader r) "Origin" in
  let allowed :=
    negb (String.eqb origin "")
    && existsb (fun piece => String.eqb (TrimSpace piece) origin)
         (strings.Split headerACAO ";") in
  let sent resp :=
    statusHandler_Header TrimSpace headerACAO r resp h
      !! "Access-Control-Allow-Origin" in
  match statusHandler_prepare r token with
  | StatusRespond resp =>
    StatusCode resp <> StatusOK /\ sent resp = h !! "Access-Control-Allow-Origin"
  | _ => True
  end
  /\ let resp := (statusHandler_finish reply).1 in
     sent resp
     = if negb (StatusCode resp =? StatusOK)%Z then h !! "Access-Control-Allow-Origin"
       else if String.eqb headerACAO "*" then Some ["*"]
       else if String.eqb headerACAO "" then h !! "Access-Control-Allow-Origin"
       else if allowed then Some [origin]
       else h !! "Access-Control-Allow-Origin".
Proof.
  intros origin allowed sent.
  assert (Herror : forall message code,
            sent (http_Error message code) = h !! "Access-Control-Allow-Origin").
  { intros message code. unfold sent, statusHandler_Header, http_Error_Header,
      Header_Set. cbn [Body http_Error].
    rewrite !lookup_insert_ne by done. by rewrite lookup_delete_ne. }
  split.
  - unfold statusHandler_prepare.
    repeat case_match; try done; simplify_eq; (split; [done | apply Herror]).
  - unfold statusHandler_finish.
    destruct reply as [|status [entries|]]; cbn [fst];
      try destruct (status =? 401)%Z; try apply Herror.
    unfold sent, statusHandler_Header, Header_Set. cbn [Body StatusCode fst].
    rewrite lookup_insert_ne by done.
    rewrite accessControlAllowOrigin_eq. cbn [negb Z.eqb StatusOK Pos.eqb].
    destruct (String.eqb headerACAO "*"); [by rewrite lookup_insert_eq|].
    destruct (String.eqb headerACAO ""); [reflexivity|].
    fold origin. fold allowed.
    destruct allowed; [by rewrite lookup_insert_eq | reflexivity].
Qed.

End AccessControlProperties.

(** *** Flags and the environment *)

Section Flags.

Variable ParseInt : string -> option Z.
Variable env : gmap string string.

(** X9: a flag given on the command line is never changed by the environment;
    a flag that was not given keeps its default when its variable
    [TYRO_<NAME>] is unset or empty, and otherwise takes the variable's
    value, parsed by the flag's kind.  The names, the number and the order
    of the flags stay the same. *)
Theorem override_flags (fs fs' : list flags.Flag) :
  flags.overrideUnsetFlagsFromEnvironmentVariables ParseInt env fs = Some fs' ->
  length fs' = length fs
  /\ forall i k, fs !! i = Some k ->
       exists k',
         fs' !! i = Some k'
         /\ flags.Name k' = flags.Name k
         /\ flags.actual k' = flags.actual k
         /\ (flags.actual k = true -> k' = k)
         /\ (flags.actual k = false ->
             flags.Getenv env (flags.EnvPrefix +:+ flags.ToUpper (flags.Name k)) = "" ->
             k' = k)
         /\ (flags.actual k = false ->
             flags.Getenv env (flags.EnvPrefix +:+ flags.ToUpper (flags.Name k)) <> "" ->
             flags.Value_Set ParseInt (flags.Val k)
               (flags.Getenv env (flags.EnvPrefix +:+ flags.ToUpper (flags.Name k)))
             = Some (flags.Val k')).
Proof.
  unfold flags.overrideUnsetFlagsFromEnvironmentVariables. intros Hm.
  apply mapM_Some in Hm.
  split; [symmetry; by eapply Forall2_length|].
  intros i k Hi.
  destruct (Forall2_lookup_l _ _ _ _ _ Hm Hi) as (k' & Hi' & Hk).
  exists k'. split; [exact Hi'|].
  unfold flags.override in Hk.
  destruct (flags.actual k) eqn:Ha; [by simplify_eq|].
  destruct (String.eqb_spec
              (flags.Getenv env (flags.EnvPrefix +:+ flags.ToUpper (flags.Name k))) "")
    as [He|He]; [by simplify_eq|].
  destruct (flags.Value_Set _ _ _) as [v|]; [|discriminate].
  simplify_eq. cbn. repeat split; done.
Qed.

(** X10: the environment ends the process exactly when a flag that was not
    given on the command line has a non-empty variable that its kind cannot
    parse; a string flag takes any value, so only the bool flag and the int
    flags can do so. *)
Theorem override_fatal_iff (fs : list flags.Flag) :
  flags.overrideUnsetFlagsFromEnvironmentVariables ParseInt env fs = None <->
  exists k,
    k ∈ fs /\ flags.actual k = false
    /\ flags.Getenv env (flags.EnvPrefix +:+ flags.ToUpper (flags.Name k)) <> ""
    /\ flags.Value_Set ParseInt (flags.Val k)
         (flags.Getenv env (flags.EnvPrefix +:+ flags.ToUpper (flags.Name k))) = None
    /\ forall s, flags.Val k <> flags.StringValue s.
Proof.
  unfold flags.overrideUnsetFlagsFromEnvironmentVariables.
  rewrite mapM_None, Exists_exists. split.
  - intros (k & Hin & Hk). exists k. split; [exact Hin|].
    unfold flags.override in Hk.
    destruct (flags.actual k); [discriminate|].
    destruct (String.eqb_spec
                (flags.Getenv env (flags.EnvPrefix +:+ flags.ToUpper (flags.Name k))) "")
      as [He|He]; [discriminate|].
    destruct (flags.Value_Set _ _ _) eqn:Hset; [discriminate|].
    repeat split; try done. intros s Hs. rewrite Hs in Hset. discriminate.
  - intros (k & Hin & Ha & He & Hset & _). exists k. split; [exact Hin|].
    unfold flags.override. rewrite Ha, Hset.
    by destruct (String.eqb_spec
                   (flags.Getenv env (flags.EnvPrefix +:+ flags.ToUpper (flags.Name k))) "").
Qed.

Lemma find_mapM_override (name : string) (fs fs' : list flags.Flag) :
  mapM (flags.override ParseInt env) fs = Some fs' ->
  match List.find (fun k => String.eqb (flags.Name k) name) fs with
  | Some k =>
    exists k', List.find (fun k => String.eqb (flags.Name k) name) fs' = Some k'
               /\ flags.override ParseInt env k = Some k'
  | None => List.find (fun k => String.eqb (flags.Name k) name) fs' = None
  end.
Proof.
  intros Hm. apply mapM_Some in Hm.
  induction Hm as [|k k' fs fs' Hk _ IH]; [done|].
  assert (Hn : flags.Name k' = flags.Name k).
  { unfold flags.override in Hk. repeat case_match; by simplify_eq. }
  cbn [List.find]. rewrite Hn.
  destruct (String.eqb (flags.Name k) name); [by exists k' | exact IH].
Qed.

(** X11: [main] starts [tokener] only with a client key and a client secret that
    are not empty.  Each of the two is the command line's value when the
    flag was given, and otherwise the value of [TYRO_KEY] or [TYRO_SECRET]
    when that is set and not empty; a key or secret given as the empty
    string on the command line is not replaced from the environment, and
    the process ends. *)
Theorem main_needs_credentials (fs fs' : list flags.Flag) :
  flags.main ParseInt env fs = flags.GoTokener fs' ->
  flags.overrideUnsetFlagsFromEnvironmentVariables ParseInt env fs = Some fs'
  /\ flags.string_of "key" fs' <> "" /\ flags.string_of "secret" fs' <> ""
  /\ forall name k,
       name = "key" \/ name = "secret" ->
       List.find (fun k => String.eqb (flags.Name k) name) fs = Some k ->
       exists s,
         flags.Val k = flags.StringValue s
         /\ flags.string_of name fs'
            = if flags.actual k then s
              else if String.eqb (flags.Getenv env (flags.EnvPrefix +:+ flags.ToUpper (flags.Name k))) ""
                   then s
                   else flags.Getenv env (flags.EnvPrefix +:+ flags.ToUpper (flags.Name k)).
Proof.
  unfold flags.main. intros Hmain.
  destruct (flags.overrideUnsetFlagsFromEnvironmentVariables ParseInt env fs)
    as [fs1|] eqn:Hov; [|discriminate].
  destruct (String.eqb_spec (flags.string_of "key" fs1) "") as [|Hkey]; [discriminate|].
  destruct (String.eqb_spec (flags.string_of "secret" fs1) "") as [|Hsec]; [discriminate|].
  simplify_eq. split; [reflexivity|]. split; [exact Hkey|]. split; [exact Hsec|].
  intros name k Hname Hfind.
  pose proof (find_mapM_override name _ _ Hov) as Hf. rewrite Hfind in Hf.
  destruct Hf as (k' & Hfind' & Hk).
  assert (Hne : flags.string_of name fs' <> "") by (by destruct Hname as [-> | ->]).
  unfold flags.string_of, flags.value_of in *. rewrite Hfind' in *. cbn in *.
  unfold flags.override in Hk.
  destruct (flags.actual k).
  { simplify_eq. destruct (flags.Val k') as [s| |]; [by exists s | done | done]. }
  destruct (String.eqb
              (flags.Getenv env (flags.EnvPrefix +:+ flags.ToUpper (flags.Name k))) "").
  { simplify_eq. destruct (flags.Val k') as [s| |]; [by exists s | done | done]. }
  destruct (flags.Val k) as [s|b|z]; cbn in Hk.
  - simplify_eq. by exists s.
  - destruct (flags.ParseBool _); cbn in Hk; simplify_eq; cbn in Hne; done.
  - destruct (ParseInt _); cbn in Hk; simplify_eq; cbn in Hne; done.
Qed.

End Flags.

(** Without [-key] and [TYRO_KEY] the process ends at line 130; with the
    two variables set it goes on, and [TYRO_URL] replaces the default
    [-url]; a [TYRO_VERBOSE] that is no boolean ends it at line 443; and the
    empty [-key ""] of the command line wins over [TYRO_KEY]. *)
Example main_with_defaults :
  flags.main (fun _ => None) ∅ flags.defaults = flags.FatalClientKey
  /\ flags.main (fun _ => None) {["TYRO_KEY" := "k"]} flags.defaults
     = flags.FatalClientSecret
  /\ (exists fs,
        flags.main (fun _ => None)
          (<["TYRO_URL" := "https://example.org/api/"]>
             (<["TYRO_SECRET" := "s"]> {["TYRO_KEY" := "k"]}))
          flags.defaults = flags.GoTokener fs
        /\ flags.string_of "key" fs = "k"
        /\ flags.string_of "secret" fs = "s"
        /\ flags.string_of "url" fs = "https://example.org/api/"
        /\ flags.string_of "address" fs = ":8877")
  /\ flags.main (fun _ => None)
       (<["TYRO_VERBOSE" := "yes"]> (<["TYRO_SECRET" := "s"]> {["TYRO_KEY" := "k"]}))
       flags.defaults = flags.FatalEnvironment
  /\ flags.main (fun _ => None)
       (<["TYRO_SECRET" := "s"]> {["TYRO_KEY" := "k"]})
       (flags.set_actual "key" (flags.StringValue "") flags.defaults)
     = flags.FatalClientKey.
Proof.
  split; [vm_compute; reflexivity|]. split; [vm_compute; reflexivity|].
  split; [eexists; repeat (split; [vm_compute; reflexivity|]); vm_compute; reflexivity|].
  split; vm_compute; reflexivity.
Qed.

(** *** Goroutines *)

Lemma refreshes_quiet (l l0 : list event) :
  Forall quiet l -> refreshes (l ++ l0) = refreshes l0.
Proof.
  induction 1 as [|e l He _ IH]; [reflexivity|].
  destruct e; cbn in *; done.
Qed.

Lemma filter_fresh_quiet (l l0 : list event) :
  Forall quiet l -> List.filter is_fresh (l ++ l0) = List.filter is_fresh l0.
Proof.
  induction 1 as [|e l He _ IH]; [reflexivity|].
  destruct e; cbn in *; done.
Qed.

Section Goroutines.

Context `{Platform}.

Lemma goroutines_init : goroutines init.
Proof. split; cbn; try done. Qed.

(** A step that leaves [main], [tokener] and the interim goroutines alone,
    adds no timer and only quiet events or a token received. *)
Lemma goroutines_frame (w w' : world) :
  goroutines w -> mainG w = MServe ->
  mainG w' = mainG w -> tokenerG w' = tokenerG w -> interims w' = interims w ->
  timers w' = timers w ->
  (exited w' = true \/ exited w' = exited w) ->
  refreshes (log w') = refreshes (log w) ->
  List.filter is_fresh (log w') = List.filter is_fresh (log w) ->
  goroutines w'.
Proof.
  intros [He Hc Hi Ht Hm] Hserve Em Eg Ei Et Ex Er Ef.
  split; rewrite ?Em, ?Eg, ?Ei, ?Et, ?Er, ?Ef; auto.
  - destruct (tokenerG w); auto.
    intros j p Hj. destruct (Hc j p Hj) as [?|[? ?]]; [by left|].
    right. split; [|done]. destruct Ex as [?|Ex]; [done | by rewrite Ex].
  - by rewrite Hserve in *.
Qed.

Lemma goroutines_serving (w : world) :
  goroutines w -> handlers w <> [] \/ timers w <> [] \/ tokenerG w <> TNotStarted /\ tokenerG w <> TSelect ->
  mainG w = MServe.
Proof.
  intros [_ _ _ _ Hm] Hne. destruct (mainG w); [| |reflexivity].
  - destruct Hm as (Hg & _ & Hh & Ht). rewrite Hg, Hh, Ht in Hne.
    by destruct Hne as [?|[?|[? _]]].
  - destruct Hm as (Hg & _ & Hh & Ht). rewrite Hg, Hh, Ht in Hne.
    by destruct Hne as [?|[?|[_ ?]]].
Qed.

Lemma last_cons_Some {A} (x y : A) (l : list A) :
  last l = Some y -> last (x :: l) = Some y.
Proof. destruct l; [discriminate | done]. Qed.

Lemma goroutines_exec (a : action) (w w' : world) :
  exec a w = Some w' -> goroutines w -> goroutines w'.
Proof.
  intros Hexec Hgo.
  assert (Hex : exited w = false).
  { unfold exec in Hexec. destruct (exited w); [discriminate | reflexivity]. }
  destruct a.
  - (* go tokener() *)
    exec_top Hexec. destruct Hgo as [He Hc Hi Ht Hm].
    repeat match goal with Hx : _ = _ |- _ => rewrite Hx in * end.
    destruct Hm as (_ & Hl & Hh & Htm).
    split; cbn; rewrite ?Hc, ?Hl, ?Hh, ?Htm in *; try done.
  - (* refresh begins *)
    unfold exec in Hexec. rewrite Hex in Hexec.
    destruct (tokenerG w) eqn:Hg; try discriminate.
    apply fmap_Some in Hexec as (w1 & Hs & ->).
    assert (Hm1 : mainG w1 = MServe
                  /\ last (refreshes (EvRefresh s (token w1) :: log w)) = Some SMain
                  /\ length (timers w1) = length (timers w)).
    { destruct Hgo as [_ _ _ _ Hm]. unfold send_refresh in Hs.
      destruct s as [|i|h].
      - destruct (mainG w); simplify_eq. destruct Hm as (_ & -> & _). done.
      - destruct (timers w !! i) as [[]|] eqn:Hi; simplify_eq. cbn.
        rewrite length_insert. destruct (mainG w).
        + destruct Hm as (_ & _ & _ & Ht). by rewrite Ht in Hi.
        + destruct Hm as (_ & _ & _ & Ht). by rewrite Ht in Hi.
        + split; [done|]. split; [|done]. by apply last_cons_Some.
      - destruct (handlers w !! h) as [[]|] eqn:Hi; simplify_eq. cbn.
        destruct (mainG w).
        + destruct Hm as (_ & _ & Hh & _). by rewrite Hh in Hi.
        + destruct Hm as (_ & _ & Hh & _). by rewrite Hh in Hi.
        + split; [done|]. split; [|done]. by apply last_cons_Some. }
    destruct Hm1 as (Hm1 & Hlast & Htm).
    apply send_refresh_frame in Hs as (E1 & E2 & E3 & E4 & E5).
    destruct Hgo as [He Hc Hi Ht Hm]. rewrite Hg in Hc.
    assert (Hclosed : forall j p, interims w !! j = Some p -> p = IClosed).
    { intros j p Hj. destruct (Hc j p Hj) as [?|[? _]]; [done | congruence]. }
    unfold tokener_refresh. destruct (url_Parse apiURL).
    + split; cbn; rewrite ?E1, ?E2, ?E3, ?E4, ?E5, ?Hm1, ?length_app; cbn.
      * intros j p Hj Hlt. apply lookup_app_Some in Hj as [Hj | [Hge Hj]].
        -- by eapply Hclosed.
        -- lia.
      * split; [lia|]. exists ISpawned. split; [|done].
        by rewrite lookup_app_r, Nat.sub_diag.
      * unfold refreshes in *. lia.
      * by rewrite Htm.
      * exact Hlast.
    + split; cbn; rewrite ?E1, ?E2, ?E3, ?E4, ?E5, ?Hm1, ?Hg, ?length_app; cbn.
      * intros j p Hj Hlt. apply lookup_app_Some in Hj as [Hj | [Hge Hj]].
        -- by eapply Hclosed.
        -- lia.
      * intros j p Hj. apply lookup_app_Some in Hj as [Hj | [Hge Hj]].
        -- left. by eapply Hclosed.
        -- right. apply list_lookup_singleton_Some in Hj as [_ <-]. done.
      * unfold refreshes in *. lia.
      * by rewrite Htm.
      * exact Hlast.
  - (* oldToken := token *)
    exec_top Hexec. destruct Hgo as [He Hc Hi Ht Hm].
    match goal with Hs : interims w !! _ = Some ISpawned |- _ => rename Hs into Hsp end.
    split; cbn; rewrite ?length_insert; auto.
    + intros j p Hj Hlt.
      apply list_lookup_insert_Some in Hj as [(-> & <- & _) | [_ Hj]]; [|eauto].
      by specialize (He _ _ Hsp Hlt).
    + destruct (tokenerG w) eqn:Hg.
      * by rewrite Hc in Hsp.
      * intros j p Hj.
        apply list_lookup_insert_Some in Hj as [(-> & <- & _) | [_ Hj]]; [|eauto].
        destruct (Hc _ _ Hsp) as [?|[? _]]; [done | congruence].
      * destruct Hc as (Hlen & p & Hp & Hr). split; [done|].
        destruct (decide (i = i0)) as [->|Hne].
        -- eexists. by rewrite list_lookup_insert_eq by (by eapply lookup_lt_Some).
        -- exists p. by rewrite list_lookup_insert_ne.
      * destruct Hc as (Hlen & p & Hp & Hr). split; [done|].
        destruct (decide (i = i0)) as [->|Hne].
        -- eexists. by rewrite list_lookup_insert_eq by (by eapply lookup_lt_Some).
        -- exists p. by rewrite list_lookup_insert_ne.
      * destruct Hc as (Hlen & p & Hp & Hr). split; [done|].
        destruct (decide (i = i0)) as [->|Hne]; [by simplify_eq|].
        exists p. by rewrite list_lookup_insert_ne.
      * destruct Hc as (i0 & p & Hlen & Hp & Hr). exists i0.
        destruct (decide (i = i0)) as [->|Hne].
        -- eexists. by rewrite list_lookup_insert_eq by (by eapply lookup_lt_Some).
        -- exists p. by rewrite list_lookup_insert_ne.
  - (* a token is handed over *)
    unfold exec in Hexec. rewrite Hex in Hexec.
    destruct (serve_token from w) as [t|]; [|discriminate].
    unfold receive_token in Hexec.
    destruct (handlers w !! h) as [pc|] eqn:Hh; [|discriminate].
    assert (Hserve : mainG w = MServe).
    { apply goroutines_serving; [done|]. left. intros Hn. by rewrite Hn in Hh. }
    destruct pc; try discriminate; repeat case_match; simplify_eq;
      (eapply goroutines_frame; [exact Hgo | exact Hserve | ..]);
      first [ done | by left | by right | reflexivity ].
  - (* the token call returns *)
    exec_top Hexec.
    assert (Hserve : mainG w = MServe).
    { apply goroutines_serving; [done|]. right. right. split; congruence. }
    destruct Hgo as [He Hc Hi Ht Hm].
    match goal with Hg : tokenerG w = TDo _ |- _ => rewrite Hg in * end.
    rewrite Hserve in Hm.
    unfold tokener_reply.
    repeat case_match; split; cbn; rewrite ?Hserve; auto;
      destruct Hc as (? & ? & ? & ?); eauto.
  - (* stopIntrim <- true *)
    exec_top Hexec.
    assert (Hserve : mainG w = MServe).
    { apply goroutines_serving; [done|]. right. right. split; congruence. }
    destruct Hgo as [He Hc Hi Ht Hm].
    match goal with Hg : tokenerG w = TStop _ _ |- _ => rewrite Hg in * end.
    rewrite Hserve in Hm. destruct Hc as (Hlen & _).
    split; cbn; rewrite ?length_insert, ?Hserve; auto.
    + intros j p Hj Hlt.
      apply list_lookup_insert_Some in Hj as [(-> & <- & _) | [_ Hj]]; [lia | eauto].
    + split; [done|]. exists IStopped.
      by rewrite list_lookup_insert_eq by (by eapply lookup_lt_Some).
  - (* close(stopIntrim) *)
    exec_top Hexec. destruct Hgo as [He Hc Hi Ht Hm].
    match goal with Hs : interims w !! _ = Some IStopped |- _ => rename Hs into Hsp end.
    split; cbn; rewrite ?length_insert; auto.
    + intros j p Hj Hlt.
      apply list_lookup_insert_Some in Hj as [(-> & <- & _) | [_ Hj]]; eauto.
    + destruct (tokenerG w) eqn:Hg.
      * by rewrite Hc in Hsp.
      * intros j p Hj.
        apply list_lookup_insert_Some in Hj as [(-> & <- & _) | [_ Hj]]; eauto.
      * destruct Hc as (Hlen & p & Hp & Hr). split; [done|].
        destruct (decide (i = i0)) as [->|Hne]; [by simplify_eq|].
        exists p. by rewrite list_lookup_insert_ne.
      * destruct Hc as (Hlen & p & Hp & Hr). split; [done|].
        destruct (decide (i = i0)) as [->|Hne]; [by simplify_eq|].
        exists p. by rewrite list_lookup_insert_ne.
      * destruct Hc as (Hlen & p & Hp & Hr). split; [done|].
        destruct (decide (i = i0)) as [->|Hne].
        -- eexists. by rewrite list_lookup_insert_eq by (by eapply lookup_lt_Some).
        -- exists p. by rewrite list_lookup_insert_ne.
      * destruct Hc as (i0 & p & Hlen & Hp & Hr). exists i0.
        destruct (decide (i = i0)) as [->|Hne]; [by simplify_eq|].
        exists p. by rewrite list_lookup_insert_ne.
  - (* token = responseJSON.AccessToken *)
    exec_top Hexec.
    assert (Hserve : mainG w = MServe).
    { apply goroutines_serving; [done|]. right. right. split; congruence. }
    destruct Hgo as [He Hc Hi Ht Hm].
    match goal with Hg : tokenerG w = TWait _ _ |- _ => rewrite Hg in * end.
    rewrite Hserve in Hm. destruct Hc as (Hlen & _).
    split; cbn; rewrite ?length_app, ?Hserve; cbn; auto; [|lia].
    intros j p Hj. left.
    destruct (decide (j = i)) as [->|Hne]; [congruence|].
    eapply He; [exact Hj|]. apply lookup_lt_Some in Hj. lia.
  - (* time.Sleep returns *)
    exec_top Hexec.
    assert (Hserve : mainG w = MServe).
    { apply goroutines_serving; [done|]. right. left. intros Hn.
      match goal with Hi : timers w !! _ = Some _ |- _ => by rewrite Hn in Hi end. }
    destruct Hgo as [He Hc Hi Ht Hm]. rewrite Hserve in Hm.
    split; cbn; rewrite ?length_insert, ?Hserve; auto.
  - (* a request is accepted *)
    exec_top Hexec.
    eapply goroutines_frame; [exact Hgo | ..];
      first [ done | by left | by right | reflexivity ].
  - (* the item call returns *)
    exec_top Hexec.
    all: match goal with Hi : handlers ?w0 !! _ = Some _ |- _ =>
           assert (Hserve : mainG w0 = MServe)
             by (apply goroutines_serving; [done|]; left; intros Hn; by rewrite Hn in Hi)
         end.
    all: eapply goroutines_frame; [exact Hgo | exact Hserve | ..];
      first [ done | by left | by right | reflexivity ].
Qed.

Lemma goroutines_reachable (acts : list action) (w : world) :
  run acts init = Some w -> goroutines w.
Proof.
  assert (Hrun : forall acts w0 w, run acts w0 = Some w -> goroutines w0 -> goroutines w).
  { clear. induction acts as [|a acts IH]; intros w0 w Hrun Hgo; cbn in Hrun.
    - by simplify_eq.
    - destruct (exec a w0) as [w1|] eqn:Hexec; [|discriminate].
      eapply IH; [exact Hrun|]. by eapply goroutines_exec. }
  intros Hr. eapply Hrun; [exact Hr | apply goroutines_init].
Qed.

End Goroutines.

Section GoroutineProperties.

Context `{Platform}.

(** X12: one interim goroutine has been started for every refresh begun and one
    timer for every refresh that succeeded, so a failed refresh schedules
    no further one; and every interim goroutine but the latest has run to
    its end: they do not pile up. *)
Theorem goroutines_accounted (acts : list action) (w : world) :
  run acts init = Some w ->
  length (interims w) = length (refreshes (log w))
  /\ length (timers w) = length (List.filter is_fresh (log w))
  /\ forall j p, interims w !! j = Some p -> p <> IClosed ->
       S j = length (interims w).
Proof.
  intros Hrun. apply goroutines_reachable in Hrun as [He _ Hi Ht _].
  split; [exact Hi|]. split; [exact Ht|].
  intros j p Hj Hp. pose proof (lookup_lt_Some _ _ _ Hj) as Hlt.
  destruct (decide (S j < length (interims w))) as [Hs|Hs]; [|lia].
  by specialize (He _ _ Hj Hs).
Qed.

(** X13: at any moment at most one goroutine is ready to send on [tokenChan]:
    [tokener] at its select and an interim goroutine never offer a token at
    the same time, nor do two interim goroutines, so what a handler
    receives does not depend on which sender the runtime picks. *)
Theorem one_sender_on_tokenChan (acts : list action) (w : world)
    (from from' : server) (t t' : string) :
  run acts init = Some w ->
  serve_token from w = Some t -> serve_token from' w = Some t' ->
  from = from' /\ t = t'.
Proof.
  intros Hrun Hs Hs'. apply goroutines_reachable in Hrun as [He Hc _ _ _].
  assert (Hlast : forall i old, interims w !! i = Some (IServing old) ->
            S i = length (interims w) /\ tokenerG w <> TSelect).
  { intros i old Hi. split.
    - pose proof (lookup_lt_Some _ _ _ Hi) as Hlt.
      destruct (decide (S i < length (interims w))) as [Hlt'|]; [|lia].
      by specialize (He _ _ Hi Hlt').
    - intros Hg. rewrite Hg in Hc. by destruct (Hc _ _ Hi) as [?|[_ ?]]. }
  unfold serve_token in *.
  destruct from as [|i], from' as [|i'].
  - destruct (tokenerG w); by simplify_eq.
  - destruct (tokenerG w) eqn:Hg; try discriminate.
    destruct (interims w !! i') as [[]|] eqn:Hi; try discriminate.
    by destruct (Hlast _ _ Hi) as [_ ?].
  - destruct (tokenerG w) eqn:Hg; try discriminate.
    destruct (interims w !! i) as [[]|] eqn:Hi; try discriminate.
    by destruct (Hlast _ _ Hi) as [_ ?].
  - destruct (interims w !! i) as [[]|] eqn:Hi; try discriminate.
    destruct (interims w !! i') as [[]|] eqn:Hi'; try discriminate.
    destruct (Hlast _ _ Hi) as [? _], (Hlast _ _ Hi') as [? _].
    assert (i = i') as -> by lia. by simplify_eq.
Qed.

Lemma receive_token_waiting (h : nat) (from : server) (t : string) (w : world)
    (pc : handler_pc) :
  handlers w !! h = Some pc -> waiting pc = true ->
  is_Some (receive_token h from t w).
Proof.
  intros Hh Hw. unfold receive_token. rewrite Hh.
  destruct pc; try discriminate; by repeat case_match.
Qed.

Lemma handler_exists_started (w : world) (h : nat) (pc : handler_pc) :
  goroutines w -> handlers w !! h = Some pc ->
  mainG w = MServe /\ last (refreshes (log w)) = Some SMain
  /\ tokenerG w <> TNotStarted.
Proof.
  intros Hgo Hh.
  assert (Hserve : mainG w = MServe).
  { apply goroutines_serving; [done|]. left. intros Hn. by rewrite Hn in Hh. }
  destruct Hgo as [_ Hc Hi _ Hm]. rewrite Hserve in Hm.
  split; [done|]. split; [done|].
  intros Hg. rewrite Hg in Hc. rewrite Hc in Hi.
  destruct (refreshes (log w)); done.
Qed.

(** X14: no request is handled before the first refresh has begun: when a
    handler exists, [main] has passed its send on [refreshTokenChan] and
    the first refresh of the log is the one it asked for. *)
Theorem requests_after_first_refresh (acts : list action) (w : world) (h : nat)
    (pc : handler_pc) :
  run acts init = Some w -> handlers w !! h = Some pc ->
  mainG w = MServe /\ last (refreshes (log w)) = Some SMain
  /\ tokenerG w <> TNotStarted.
Proof.
  intros Hrun Hh. apply goroutines_reachable in Hrun.
  by eapply handler_exists_started.
Qed.

Lemma serve_by_tokener (w : world) (h : nat) (pc : handler_pc) :
  exited w = false -> tokenerG w = TSelect ->
  handlers w !! h = Some pc -> waiting pc = true ->
  is_Some (exec (AServe ByTokener h) w).
Proof.
  intros Hex Hg Hh Hw. unfold exec, serve_token. rewrite Hex, Hg.
  by eapply receive_token_waiting.
Qed.

Lemma serve_by_interim (w : world) (i h : nat) (old : string) (pc : handler_pc) :
  exited w = false -> interims w !! i = Some (IServing old) ->
  handlers w !! h = Some pc -> waiting pc = true ->
  is_Some (exec (AServe (ByInterim i) h) w).
Proof.
  intros Hex Hi Hh Hw. unfold exec, serve_token. rewrite Hex, Hi.
  by eapply receive_token_waiting.
Qed.

(** X15: a handler waiting for the token is never held up by the network: from
    every state the scheduler alone, in at most two steps of the interim
    goroutine and of [tokener], reaches a state in which the token is
    handed to it, also while the call to the token endpoint is in flight
    and after a refresh has failed. *)
Theorem get_needs_no_network (acts : list action) (w : world) (h : nat)
    (pc : handler_pc) :
  run acts init = Some w -> exited w = false ->
  handlers w !! h = Some pc -> waiting pc = true ->
  exists steps from w1 w2,
    length steps <= 2 /\ forallb internal steps = true
    /\ run steps w = Some w1
    /\ exec (AServe from h) w1 = Some w2.
Proof.
  intros Hrun Hex Hh Hw. apply goroutines_reachable in Hrun as Hgo.
  destruct (handler_exists_started _ _ _ Hgo Hh) as (_ & _ & Hstarted).
  destruct Hgo as [_ Hc _ _ _].
  (* an interim goroutine that has not been stopped serves, after its
     first statement if need be *)
  assert (Hrunning : forall i p, interims w !! i = Some p -> running p = true ->
            exists steps from w1 w2,
              length steps <= 2 /\ forallb internal steps = true
              /\ run steps w = Some w1 /\ exec (AServe from h) w1 = Some w2).
  { intros i p Hi Hr. destruct p as [|old| |]; try discriminate.
    - destruct (serve_by_interim
                  (set_interims (<[i:=IServing (token w)]> (interims w)) w)
                  i h (token w) pc) as [w2 Hw2]; [done| |done|done|].
      { cbn. apply list_lookup_insert_eq. by eapply lookup_lt_Some. }
      exists [AInterimStart i], (ByInterim i),
        (set_interims (<[i:=IServing (token w)]> (interims w)) w), w2.
      split; [cbn; lia|]. split; [done|]. split; [|exact Hw2].
      cbn. unfold exec. by rewrite Hex, Hi.
    - destruct (serve_by_interim w i h old pc) as [w2 Hw2]; [done..|].
      exists [], (ByInterim i), w, w2. split; [cbn; lia|]. by repeat split. }
  destruct (tokenerG w) eqn:Hg.
  - done.
  - destruct (serve_by_tokener w h pc) as [w2 Hw2]; [done..|].
    exists [], ByTokener, w, w2. split; [cbn; lia|]. by repeat split.
  - destruct Hc as (_ & p & Hi & Hr). by eapply Hrunning.
  - destruct Hc as (_ & p & Hi & Hr). by eapply Hrunning.
  - destruct Hc as (_ & p & Hi & Hr).
    set (w1 := set_tokener TSelect
                 (set_timers (timers w ++ [TmSleep (ExpiresIn responseJSON - 20)])
                    (record (EvFresh (AccessToken responseJSON))
                       (set_token (AccessToken responseJSON)
                          (set_interims (<[i:=IClosed]> (interims w)) w))))).
    destruct (serve_by_tokener w1 h pc) as [w2 Hw2]; [done..|].
    destruct p; try discriminate.
    + exists [AClose i; AResume], ByTokener, w1, w2.
      split; [cbn; lia|]. split; [done|]. split; [|exact Hw2].
      cbn. unfold exec at 1. rewrite Hex, Hi.
      unfold exec. cbn. rewrite Hex, Hg.
      rewrite list_lookup_insert_eq by (by eapply lookup_lt_Some). reflexivity.
    + exists [AResume], ByTokener, w1, w2.
      split; [cbn; lia|]. split; [done|]. split; [|exact Hw2].
      cbn. unfold exec. rewrite Hex, Hg, Hi.
      subst w1. rewrite (list_insert_id _ _ _ Hi). by destruct w.
  - destruct Hc as (i & p & _ & Hi & Hr). by eapply Hrunning.
Qed.

End GoroutineProperties.

(** *** Tokens handed out and triggers received *)

Section Liveness.

Context `{Platform}.













End Liveness.

(** *** What one handler does *)

Section Protocol.

Context `{Platform}.

Lemma handler_events_other (h : nat) (l l0 : list event) :
  Forall (fun e => of_handler h e = false) l ->
  handler_events h (l ++ l0) = handler_events h l0.
Proof.
  unfold handler_events. induction 1 as [|e l He _ IH]; [reflexivity|].
  cbn. by rewrite He.
Qed.

(** A step that leaves handler [h] where it is and adds none of its
    events. *)
Lemma protocol_frame (h : nat) (w w' : world) (l : list event) :
  protocol h w -> exited w = false ->
  handlers w' !! h = handlers w !! h ->
  log w' = (l ++ log w)%list -> Forall (fun e => of_handler h e = false) l ->
  protocol h w'.
Proof.
  unfold protocol. intros Hp Hex Eh El Hl.
  rewrite Eh, El, handler_events_other by done.
  destruct (handlers w !! h) as [[]|]; try done.
  - destruct Hp as [?|[? _]]; [by left | congruence].
  - destruct Hp as [?|[? _]]; [by left | congruence].
Qed.

Lemma protocol_init (h : nat) : protocol h init.
Proof. done. Qed.

Lemma protocol_exec (a : action) (w w' : world) :
  exec a w = Some w' -> (forall h, protocol h w) -> forall h, protocol h w'.
Proof.
  intros Hexec Hp h0.
  assert (Hex : exited w = false).
  { unfold exec in Hexec. destruct (exited w); [discriminate | reflexivity]. }
  specialize (Hp h0).
  destruct a; exec_cases Hexec.
  all: try (eapply (protocol_frame _ _ _ []); [exact Hp | done..]).
  all: try (eapply (protocol_frame _ _ _ [_]); [exact Hp | done | done | done |];
            by repeat constructor).
  all: try (eapply (protocol_frame _ _ _ [_; _]); [exact Hp | done | done | done |];
            by repeat constructor).
  all: try match goal with
       | Hh : handlers _ !! ?h = Some _ |- _ =>
         destruct (decide (h0 = h)) as [->|Hne];
         [ unfold protocol in *; cbn;
           rewrite ?list_lookup_insert_eq by (by eapply lookup_lt_Some);
           rewrite Hh in Hp; unfold handler_events in *; cbn;
           rewrite ?Nat.eqb_refl
         | first
             [ eapply (protocol_frame _ _ _ []);
               [exact Hp | done | by cbn; rewrite list_lookup_insert_ne | done | done]
             | eapply (protocol_frame _ _ _ [_]);
               [exact Hp | done | by cbn; rewrite list_lookup_insert_ne | done |];
               repeat constructor; cbn; by apply Nat.eqb_neq
             | eapply (protocol_frame _ _ _ [_; _]);
               [exact Hp | done | by cbn; rewrite list_lookup_insert_ne | done |];
               repeat constructor; cbn; by apply Nat.eqb_neq ] ]
       end.
  all: try match type of Hp with
       | _ \/ _ => destruct Hp as [Hp | [Hx _]]; [rewrite Hp | congruence]
       | exists (_ : server) (_ : string), _ /\ _ =>
         destruct Hp as (from0 & t0 & Hp & Hprep); rewrite Hp
       | exists (_ : server) (_ : string) (_ : Request) (_ : Request), _ =>
         destruct Hp as (from0 & t0 & r1 & out0 & Hp & Hprep)
       end.
  all: try by eauto 10.
  all: try match goal with
       | Hh : handlers _ !! ?h = Some _ |- protocol _ (set_exited _) =>
         destruct (decide (h0 = h)) as [->|Hne];
         [ unfold protocol in *; cbn; rewrite Hh in *;
           unfold handler_events in *; cbn; rewrite Nat.eqb_refl;
           right; split; [done|];
           destruct Hp as [Hp | [Hx _]]; [rewrite Hp; by eauto | congruence]
         | eapply (protocol_frame _ _ _ [_]); [exact Hp | done | done | done |];
           repeat constructor; cbn; by apply Nat.eqb_neq ]
       end.
  (* a request is accepted *)
  unfold protocol, handler_events in *. cbn in *.
  destruct (handlers w !! h0) as [pc|] eqn:Hh0.
  - by rewrite (lookup_app_l_Some _ _ _ _ Hh0).
  - rewrite Hp. destruct ((handlers w ++ [h])%list !! h0) as [pc|] eqn:Hnew; [|done].
    apply lookup_app_Some in Hnew as [Hnew | [_ Hnew]]; [congruence|].
    apply list_lookup_singleton_Some in Hnew as [_ <-].
    match goal with Hr : route _ = Some _ |- _ =>
      unfold route in Hr; repeat case_match; simplify_eq; by left end.
Qed.

Lemma protocol_reachable (acts : list action) (w : world) :
  run acts init = Some w -> forall h, protocol h w.
Proof.
  assert (Hrun : forall acts w0 w,
            run acts w0 = Some w -> (forall h, protocol h w0) -> forall h, protocol h w).
  { clear. induction acts as [|a acts IH]; intros w0 w Hrun Hp; cbn in Hrun.
    - by simplify_eq.
    - destruct (exec a w0) as [w1|] eqn:Hexec; [|discriminate].
      eapply IH; [exact Hrun|]. by eapply protocol_exec. }
  intros Hr. eapply Hrun; [exact Hr | apply protocol_init].
Qed.

Lemma prepare_do_bearer (r out : Request) (t : string) :
  statusHandler_prepare r t = StatusDo out ->
  sentinel t = false
  /\ ReqHeader out !! "Authorization" = Some ["Bearer " +:+ t].
Proof.
  unfold statusHandler_prepare, sentinel. intros Hprep.
  destruct (String.eqb t "uninitialized"); [discriminate|].
  destruct (String.eqb t ""); [discriminate|].
  split; [reflexivity|].
  repeat case_match; simplify_eq.
  by rewrite setAuthorizationHeaders_Authorization.
Qed.

Lemma prepare_respond_code (r : Request) (t : string) (resp : Response) :
  statusHandler_prepare r t = StatusRespond resp ->
  StatusCode resp = if sentinel t then StatusInternalServerError else StatusBadRequest.
Proof.
  unfold statusHandler_prepare, sentinel. intros Hprep.
  destruct (String.eqb t "uninitialized"); [by simplify_eq|].
  destruct (String.eqb t ""); [by simplify_eq|].
  repeat case_match; by simplify_eq.
Qed.

(** X16: every handler follows one course: it receives a token once, before
    anything else; it calls the item endpoint at most once, only with a
    token that is not a sentinel, which it sends as the bearer token; and
    it writes at most one response, after the call when there is one.  A
    response without a call is the 500 for a sentinel token or the 400 for
    an empty identifier. *)
Theorem handler_course (acts : list action) (w : world) (h : nat) :
  run acts init = Some w ->
  handler_events h (log w) = []
  \/ exists from t,
       handler_events h (log w) = [EvGet h from t]
       \/ (exists resp,
             handler_events h (log w) = [EvRespond h resp; EvGet h from t]
             /\ StatusCode resp
                = if sentinel t then StatusInternalServerError else StatusBadRequest)
       \/ exists getItemStatus,
            sentinel t = false
            /\ ReqHeader getItemStatus !! "Authorization" = Some ["Bearer " +:+ t]
            /\ (handler_events h (log w) = [EvItemDo h getItemStatus; EvGet h from t]
                \/ exists resp,
                     handler_events h (log w)
                     = [EvRespond h resp; EvItemDo h getItemStatus; EvGet h from t]).
Proof.
  intros Hrun. pose proof (protocol_reachable _ _ Hrun h) as Hp.
  unfold protocol in Hp.
  destruct (handlers w !! h) as [[]|].
  - destruct Hp as [?|(_ & from & t & ?)]; [by left | right; by eauto].
  - destruct Hp as (from & t & Hev & Hprep). right. exists from, t. right. right.
    apply prepare_do_bearer in Hprep as [? ?]. eauto 10.
  - destruct Hp as (from & t & r & out & Hev & Hprep). right. exists from, t.
    right. right. apply prepare_do_bearer in Hprep as [? ?]. eauto 10.
  - destruct Hp as [?|(_ & from & t & ?)]; [by left | right; by eauto].
  - destruct Hp as (from & t & ?). right; by eauto.
  - destruct Hp as (from & t & r & [[Hev Hprep] | (out & Hev & Hprep)]);
      right; exists from, t; right.
    + left. apply prepare_respond_code in Hprep. by eauto.
    + right. apply prepare_do_bearer in Hprep as [? ?]. eauto 10.
  - destruct Hp as (from & t & ?). right; by eauto.
  - by left.
Qed.

End Protocol.

(** *** Handlers do not panic *)

Lemma prefix_slice_from (p s : string) :
  String.prefix p s = true ->
  exists rest, strings.slice_from (String.length p) s = Some rest.
Proof.
  revert s. induction p as [|c p IH]; intros s Hp; [by exists s|].
  destruct s as [|d s]; [discriminate|]. cbn in *.
  destruct (Ascii.ascii_dec c d); [|discriminate]. by apply IH.
Qed.

Section Routed.

Context `{Platform}.

Lemma routed_prepare (r : Request) (t : string) :
  String.prefix "/status/" (Path (ReqURL r)) = true ->
  statusHandler_prepare r t <> StatusPanic.
Proof.
  intros Hp.
  destruct (prefix_slice_from _ _ Hp) as [rest Hrest].
  unfold statusHandler_prepare, bibID. rewrite Hrest.
  by repeat case_match.
Qed.

Lemma routed_rawRewriter (r : Request) (t : string) :
  String.prefix "/raw/" (Path (ReqURL r)) = true ->
  rawRewriter r t <> RawPanic.
Proof.
  intros Hp.
  destruct (prefix_slice_from _ _ Hp) as [rest Hrest].
  unfold rawRewriter. rewrite Hrest.
  by repeat case_match.
Qed.

Lemma routed_exec (a : action) (w w' : world) :
  exec a w = Some w' -> Forall routed (handlers w) -> Forall routed (handlers w').
Proof.
  intros Hexec Hr.
  destruct a; exec_cases Hexec; cbn; try done.
  all: try (apply Forall_insert; [done|]; cbn).
  all: try done.
  all: try match goal with
       | Hh : handlers _ !! _ = Some (HStatusToken ?r),
         Hp : statusHandler_prepare ?r ?t = StatusPanic |- _ =>
         by destruct (routed_prepare r t (Forall_lookup_1 _ _ _ _ Hr Hh))
       | Hh : handlers _ !! _ = Some (HRawToken ?r),
         Hp : rawRewriter ?r ?t = RawPanic |- _ =>
         by destruct (routed_rawRewriter r t (Forall_lookup_1 _ _ _ _ Hr Hh))
       end.
  apply Forall_app. split; [done|]. constructor; [|done].
  match goal with Hroute : route _ = Some _ |- _ =>
    unfold route in Hroute; repeat case_match; by simplify_eq end.
Qed.

(** X17: no handler ever panics: the routes of [init] hand [statusHandler] only
    paths that begin with ["/status/"] and [rawRewriter] only paths that
    begin with ["/raw/"], so the slice expressions of lines 181 and 315 are
    always within bounds. *)
Theorem handlers_never_panic (acts : list action) (w : world) (h : nat)
    (pc : handler_pc) :
  run acts init = Some w -> handlers w !! h = Some pc ->
  pc <> HPanicked
  /\ (forall r, pc = HStatusToken r -> exists id, bibID r = Some id)
  /\ (forall r t, pc = HRawToken r -> rawRewriter r t <> RawPanic).
Proof.
  intros Hrun Hh.
  assert (Hall : Forall routed (handlers w)).
  { clear Hh. revert Hrun. generalize (Forall_nil_2 routed : Forall routed (handlers init)).
    generalize init. induction acts as [|a acts IH]; intros w0 H0 Hrun; cbn in Hrun.
    - by simplify_eq.
    - destruct (exec a w0) as [w1|] eqn:Hexec; [|discriminate].
      eapply IH; [|exact Hrun]. by eapply routed_exec. }
  pose proof (Forall_lookup_1 _ _ _ _ Hall Hh) as Hpc.
  split; [by intros ->|]. split.
  - intros r ->. cbn in Hpc. destruct (prefix_slice_from _ _ Hpc) as [rest Hrest].
    unfold bibID. rewrite Hrest. by eexists.
  - intros r t ->. by apply routed_rawRewriter.
Qed.

End Routed.

(** *** Where tokens come from *)

Lemma known_mono (l l0 : list event) (t : string) :
  known l0 t -> known (l ++ l0) t.
Proof.
  intros [?|[?|(r & Hin & Hr)]]; [by left | by right; left |].
  right. right. exists r. split; [|done]. apply elem_of_app. by right.
Qed.

Lemma last_reply_elem_of (l : list event) (reply : TokenReply) :
  last_reply l = Some reply -> EvTokenDone reply ∈ l.
Proof.
  induction l as [|e l IH]; [done|]. intros Hl.
  destruct e; cbn in Hl; try (apply elem_of_cons; right; by apply IH).
  simplify_eq. apply elem_of_cons. by left.
Qed.

Section Provenance.

Context `{Platform}.

Lemma provenance_init : provenance init.
Proof.
  split; cbn; [by left | done |]. intros h from t Hin. by apply elem_of_nil in Hin.
Qed.

Lemma provenance_exec (a : action) (w w' : world) :
  exec a w = Some w' -> invariant w -> provenance w -> provenance w'.
Proof.
  intros Hexec Hinv [Ht Hs Hg].
  destruct (exec_log _ _ _ Hexec) as (l & El).
  assert (Hserved : forall from t, serve_token from w = Some t -> known (log w) t).
  { intros from t Hsv. unfold serve_token in Hsv.
    destruct from; repeat case_match; simplify_eq; eauto. }
  assert (Hfresh : forall i r, tokenerG w = TWait i r ->
            known (log w) (AccessToken r)).
  { intros i r Hg'. right. right. exists r. split; [|done].
    apply last_reply_elem_of. apply (inv_reply _ Hinv). by rewrite Hg'. }
  assert (Htok : known (log w') (token w')).
  { rewrite El. apply known_mono.
    destruct a; exec_cases Hexec; cbn; eauto; by right; left. }
  assert (Hserving : forall j old,
            interims w' !! j = Some (IServing old) -> known (log w') old).
  { intros j old Hj. rewrite El. apply known_mono. revert Hj.
    destruct a; exec_cases Hexec; cbn; eauto; intros Hj.
    all: try (apply lookup_app_Some in Hj as [Hj | [_ Hj]];
              [by eauto | by apply list_lookup_singleton_Some in Hj as [_ ?]]).
    all: try (apply list_lookup_insert_Some in Hj as [(-> & Hj & _) | [_ Hj]];
              [by simplify_eq | by eauto]). }
  split; [exact Htok | exact Hserving |].
  intros h0 from t Hin. rewrite El in *. apply known_mono.
  apply elem_of_app in Hin as [Hin | Hin]; [|by eauto].
  assert (Hnew : log w' = (l ++ log w)%list) by done. clear El. revert Hnew Hin.
  destruct a; exec_cases Hexec; cbn; intros Hnew Hin.
  all: repeat match goal with
       | Hn : ?x :: ?y :: ?z :: ?l0 = (?l1 ++ ?l0)%list |- _ =>
         change (([x; y; z] ++ l0)%list = (l1 ++ l0)%list) in Hn;
         apply app_inv_tail in Hn; subst l1
       | Hn : ?x :: ?y :: ?l0 = (?l1 ++ ?l0)%list |- _ =>
         change (([x; y] ++ l0)%list = (l1 ++ l0)%list) in Hn;
         apply app_inv_tail in Hn; subst l1
       | Hn : ?x :: ?l0 = (?l1 ++ ?l0)%list |- _ =>
         change (([x] ++ l0)%list = (l1 ++ l0)%list) in Hn;
         apply app_inv_tail in Hn; subst l1
       | Hn : ?l0 = (?l1 ++ ?l0)%list |- _ =>
         change (([] ++ l0)%list = (l1 ++ l0)%list) in Hn;
         apply app_inv_tail in Hn; subst l1
       end.
  all: repeat match goal with
       | Hi : _ ∈ [] |- _ => by apply elem_of_nil in Hi
       | Hi : _ ∈ _ :: _ |- _ => apply elem_of_cons in Hi as [Hi | Hi]; simplify_eq
       end.
  all: first [exact Ht | eapply Hs; eassumption].
Qed.

Lemma provenance_reachable (acts : list action) (w : world) :
  run acts init = Some w -> provenance w.
Proof.
  assert (Hrun : forall acts w0 w,
            run acts w0 = Some w -> invariant w0 -> provenance w0 -> provenance w).
  { clear. induction acts as [|a acts IH]; intros w0 w Hrun Hi Hp; cbn in Hrun.
    - by simplify_eq.
    - destruct (exec a w0) as [w1|] eqn:Hexec; [|discriminate].
      eapply IH; [exact Hrun | by eapply invariant_exec | by eapply provenance_exec]. }
  intros Hr. eapply Hrun; [exact Hr | apply invariant_init | apply provenance_init].
Qed.

(** X18: every token a handler ever receives is ["uninitialized"], the
    empty string, or the access token of a response that the token endpoint
    gave with status 200 earlier in the same execution; and the
    Authorization header of every call to the item endpoint is "Bearer "
    followed by the access token of such a response. *)
Theorem tokens_come_from_the_endpoint (acts : list action) (w : world) :
  run acts init = Some w ->
  (forall h from t, EvGet h from t ∈ log w -> known (log w) t)
  /\ (forall h getItemStatus, EvItemDo h getItemStatus ∈ log w ->
        exists responseJSON,
          EvTokenDone (fetched responseJSON) ∈ log w
          /\ ReqHeader getItemStatus !! "Authorization"
             = Some ["Bearer " +:+ AccessToken responseJSON]).
Proof.
  intros Hrun. pose proof (provenance_reachable _ _ Hrun) as [_ _ Hg].
  split; [exact Hg|].
  intros h out Hin.
  assert (Hev : In (EvItemDo h out) (handler_events h (log w))).
  { unfold handler_events. apply filter_In.
    split; [by apply list_elem_of_In | cbn; apply Nat.eqb_refl]. }
  assert (Hsub : forall e, In e (handler_events h (log w)) -> e ∈ log w).
  { intros e He. unfold handler_events in He.
    apply filter_In in He as [He _]. by apply list_elem_of_In. }
  pose proof (protocol_reachable _ _ Hrun h) as Hp. unfold protocol in Hp.
  assert (Hget : exists from t r,
            EvGet h from t ∈ log w /\ statusHandler_prepare r t = StatusDo out).
  { destruct (handlers w !! h) as [[]|].
    - destruct Hp as [Hp|(_ & from & t & Hp)]; rewrite Hp in Hev;
        cbn in Hev; intuition discriminate.
    - destruct Hp as (from & t & Hp & Hprep). exists from, t, r.
      rewrite Hp in Hev, Hsub. cbn in Hev.
      destruct Hev as [Hev|[Hev|[]]]; [|discriminate]. simplify_eq.
      split; [|done]. apply Hsub. cbn. auto.
    - destruct Hp as (from & t & r & out' & Hp & Hprep). exists from, t, r.
      rewrite Hp in Hev, Hsub. cbn in Hev.
      destruct Hev as [Hev|[Hev|[Hev|[]]]]; try discriminate. simplify_eq.
      split; [|done]. apply Hsub. cbn. auto.
    - destruct Hp as [Hp|(_ & from & t & Hp)]; rewrite Hp in Hev;
        cbn in Hev; intuition discriminate.
    - destruct Hp as (from & t & Hp). rewrite Hp in Hev.
      cbn in Hev. intuition discriminate.
    - destruct Hp as (from & t & r & [[Hp Hprep] | (out' & Hp & Hprep)]);
        rewrite Hp in Hev, Hsub; cbn in Hev.
      + intuition discriminate.
      + exists from, t, r.
        destruct Hev as [Hev|[Hev|[Hev|[]]]]; try discriminate. simplify_eq.
        split; [|done]. apply Hsub. cbn. auto.
    - destruct Hp as (from & t & Hp). rewrite Hp in Hev.
      cbn in Hev. intuition discriminate.
    - rewrite Hp in Hev. destruct Hev. }
  destruct Hget as (from & t & r & Hgot & Hprep).
  apply prepare_do_bearer in Hprep as [Hsent Hauth].
  apply sentinel_false in Hsent as [Hu He].
  destruct (Hg _ _ _ Hgot) as [?|[?|(resp & Hdone & <-)]]; [done | done |].
  by exists resp.
Qed.

End Provenance.

(** *** Worked cases of the further properties *)

Lemma rawRewriter_keeps_inbound_witness :
  exists out lines,
    @rawRewriter Worked.platform More.forwarded "tok1" = RawForward out lines
    /\ Method out = "POST" /\ RemoteAddr out = "10.0.0.7:51234"
    /\ (forall key values,
          ReqHeader More.forwarded !! key = Some values ->
          exists added, ReqHeader out !! key = Some (values ++ added)%list)
    /\ (forall key,
          key <> "Authorization" -> key <> "User-Agent" -> key <> "X-Forwarded-For" ->
          ReqHeader out !! key = ReqHeader More.forwarded !! key)
    /\ (forall first others,
          ReqHeader More.forwarded !! "X-Forwarded-For" = Some (first :: others) ->
          first <> "" ->
          ReqHeader out !! "X-Forwarded-For" = Some (first :: others ++ [first])%list)
    /\ (Header_Get (ReqHeader More.forwarded) "X-Forwarded-For" = "" ->
        ReqHeader out !! "X-Forwarded-For"
        = Some (default [] (ReqHeader More.forwarded !! "X-Forwarded-For")
                ++ [@SplitHostPort_host Worked.platform (RemoteAddr More.forwarded)])%list).
Proof.
  eexists _, _. split; [vm_compute; reflexivity|].
  eapply (@rawRewriter_keeps_inbound Worked.platform More.forwarded _ "tok1").
  vm_compute; reflexivity.
Defined.

(** The upstream request of the raw proxy for that inbound request. *)
Example rawRewriter_forwarded :
  exists out lines,
    @rawRewriter Worked.platform More.forwarded "tok1" = RawForward out lines
    /\ ReqHeader out !! "Authorization" = Some ["Basic Zm9v"; "Bearer tok1"]
    /\ ReqHeader out !! "X-Forwarded-For"
       = Some ["198.51.100.7"; "10.0.0.1"; "198.51.100.7"]
    /\ ReqHeader out !! "Accept" = Some ["application/json"]
    /\ Path (ReqURL out) = "/iii/sierra-api/v1/patrons/find"
    /\ RawQuery (ReqURL out) = "barcode=21".
Proof.
  eexists _, _.
  repeat (split; [vm_compute; reflexivity|]).
  vm_compute; reflexivity.
Qed.

Lemma override_flags_witness :
  exists fs',
    flags.overrideUnsetFlagsFromEnvironmentVariables More.ParseInt More.env
      (flags.set_actual "key" (flags.StringValue "cli") flags.defaults) = Some fs'
    /\ flags.string_of "key" fs' = "cli"
    /\ flags.string_of "secret" fs' = "s"
    /\ flags.value_of "verbose" fs' = Some (flags.BoolValue true)
    /\ flags.value_of "logmaxsize" fs' = Some (flags.IntValue 10)
    /\ flags.string_of "address" fs' = ":8877"
    /\ length fs' = length (flags.set_actual "key" (flags.StringValue "cli") flags.defaults)
    /\ forall i k,
         flags.set_actual "key" (flags.StringValue "cli") flags.defaults !! i = Some k ->
         exists k',
           fs' !! i = Some k'
           /\ flags.Name k' = flags.Name k
           /\ flags.actual k' = flags.actual k
           /\ (flags.actual k = true -> k' = k)
           /\ (flags.actual k = false ->
               flags.Getenv More.env (flags.EnvPrefix +:+ flags.ToUpper (flags.Name k)) = "" ->
               k' = k)
           /\ (flags.actual k = false ->
               flags.Getenv More.env (flags.EnvPrefix +:+ flags.ToUpper (flags.Name k)) <> "" ->
               flags.Value_Set More.ParseInt (flags.Val k)
                 (flags.Getenv More.env (flags.EnvPrefix +:+ flags.ToUpper (flags.Name k)))
               = Some (flags.Val k')).
Proof.
  eexists.
  repeat (split; [vm_compute; reflexivity|]).
  eapply (override_flags More.ParseInt More.env).
  vm_compute; reflexivity.
Defined.

Lemma main_needs_credentials_witness :
  exists fs',
    flags.main More.ParseInt More.env flags.defaults = flags.GoTokener fs'
    /\ flags.overrideUnsetFlagsFromEnvironmentVariables More.ParseInt More.env
         flags.defaults = Some fs'
    /\ flags.string_of "key" fs' <> "" /\ flags.string_of "secret" fs' <> ""
    /\ forall name k,
         name = "key" \/ name = "secret" ->
         List.find (fun k => String.eqb (flags.Name k) name) flags.defaults = Some k ->
         exists s,
           flags.Val k = flags.StringValue s
           /\ flags.string_of name fs'
              = if flags.actual k then s
                else if String.eqb
                          (flags.Getenv More.env
                             (flags.EnvPrefix +:+ flags.ToUpper (flags.Name k))) ""
                     then s
                     else flags.Getenv More.env
                            (flags.EnvPrefix +:+ flags.ToUpper (flags.Name k)).
Proof.
  eexists. split; [vm_compute; reflexivity|].
  eapply (main_needs_credentials More.ParseInt More.env flags.defaults).
  vm_compute; reflexivity.
Defined.

Lemma goroutines_accounted_witness :
  exists w,
    @run Worked.platform
      (Worked.trigger_during_refresh ++ Worked.second_refresh_succeeds) init = Some w
    /\ length (interims w) = 3 /\ length (timers w) = 2
    /\ length (interims w) = length (refreshes (log w))
    /\ length (timers w) = length (List.filter is_fresh (log w))
    /\ forall j p, interims w !! j = Some p -> p <> IClosed ->
         S j = length (interims w).
Proof.
  eexists.
  repeat (split; [vm_compute; reflexivity|]).
  eapply (@goroutines_accounted Worked.platform
            (Worked.trigger_during_refresh ++ Worked.second_refresh_succeeds)).
  vm_compute; reflexivity.
Defined.

Lemma one_sender_on_tokenChan_witness :
  exists w,
    @run Worked.platform Worked.trigger_during_refresh init = Some w
    /\ serve_token (ByInterim 1) w = Some "tok1"
    /\ serve_token ByTokener w = None
    /\ ByInterim 1 = ByInterim 1 /\ "tok1" = "tok1".
Proof.
  eexists.
  repeat (split; [vm_compute; reflexivity|]).
  eapply (@one_sender_on_tokenChan Worked.platform Worked.trigger_during_refresh
            _ (ByInterim 1) (ByInterim 1) "tok1" "tok1");
    vm_compute; reflexivity.
Defined.

Lemma requests_after_first_refresh_witness :
  exists w,
    @run Worked.platform More.waiting_during_refresh init = Some w
    /\ handlers w !! 0 = Some (HStatusToken (Worked.get "/status/b1234" ""))
    /\ mainG w = MServe /\ last (refreshes (log w)) = Some SMain
    /\ tokenerG w <> TNotStarted.
Proof.
  eexists.
  repeat (split; [vm_compute; reflexivity|]).
  eapply (@requests_after_first_refresh Worked.platform More.waiting_during_refresh _ 0);
    vm_compute; reflexivity.
Defined.

Lemma get_needs_no_network_witness :
  exists w,
    @run Worked.platform More.waiting_during_refresh init = Some w
    /\ tokenerG w = TDo 1 /\ interims w !! 1 = Some ISpawned
    /\ exists steps from w1 w2,
         length steps <= 2 /\ forallb internal steps = true
         /\ @run Worked.platform steps w = Some w1
         /\ @exec Worked.platform (AServe from 0) w1 = Some w2.
Proof.
  eexists.
  repeat (split; [vm_compute; reflexivity|]).
  eapply (@get_needs_no_network Worked.platform More.waiting_during_refresh _ 0);
    vm_compute; reflexivity.
Defined.

Lemma handler_course_witness :
  exists w,
    @run Worked.platform Worked.trigger_during_refresh init = Some w
    /\ (handler_events 0 (log w) = []
        \/ exists from t,
             handler_events 0 (log w) = [EvGet 0 from t]
             \/ (exists resp,
                   handler_events 0 (log w) = [EvRespond 0 resp; EvGet 0 from t]
                   /\ StatusCode resp
                      = if sentinel t then StatusInternalServerError else StatusBadRequest)
             \/ exists getItemStatus,
                  sentinel t = false
                  /\ ReqHeader getItemStatus !! "Authorization" = Some ["Bearer " +:+ t]
                  /\ (handler_events 0 (log w) = [EvItemDo 0 getItemStatus; EvGet 0 from t]
                      \/ exists resp,
                           handler_events 0 (log w)
                           = [EvRespond 0 resp; EvItemDo 0 getItemStatus; EvGet 0 from t])).
Proof.
  eexists. split; [vm_compute; reflexivity|].
  eapply (@handler_course Worked.platform Worked.trigger_during_refresh).
  vm_compute; reflexivity.
Defined.

Lemma handlers_never_panic_witness :
  exists w,
    @run Worked.platform Worked.trigger_during_refresh init = Some w
    /\ exists pc,
         handlers w !! 0 = Some pc
         /\ pc <> HPanicked
         /\ (forall r, pc = HStatusToken r -> exists id, bibID r = Some id)
         /\ (forall r t, pc = HRawToken r -> @rawRewriter Worked.platform r t <> RawPanic).
Proof.
  eexists. split; [vm_compute; reflexivity|].
  eexists. split; [vm_compute; reflexivity|].
  eapply (@handlers_never_panic Worked.platform Worked.trigger_during_refresh _ 0);
    vm_compute; reflexivity.
Defined.

Lemma tokens_come_from_the_endpoint_witness :
  exists w,
    @run Worked.platform Worked.trigger_during_refresh init = Some w
    /\ (forall h from t, EvGet h from t ∈ log w -> known (log w) t)
    /\ (forall h getItemStatus, EvItemDo h getItemStatus ∈ log w ->
          exists responseJSON,
            EvTokenDone (fetched responseJSON) ∈ log w
            /\ ReqHeader getItemStatus !! "Authorization"
               = Some ["Bearer " +:+ AccessToken responseJSON]).
Proof.
  eexists. split; [vm_compute; reflexivity|].
  eapply (@tokens_come_from_the_endpoint Worked.platform Worked.trigger_during_refresh).
  vm_compute; reflexivity.
Defined.

(** *** Worked cases of tokens handed out and triggers received *)


(** The fifth request of that execution is handed the second token at
    once, by [tokener] at its select. *)
Example get_in_every_phase_served :
  exists w w2,
    @run Worked.platform More.get_in_every_phase init = Some w
    /\ waiting <$> handlers w !! 4 = Some true
    /\ tokenerG w = TSelect
    /\ @exec Worked.platform (AServe ByTokener 4) w = Some w2
    /\ gets (log w2) = ["tok2"; "tok2"; "tok1"; "tok1"; "uninitialized"].
Proof.
  eexists _, _.
  repeat (split; [vm_compute; reflexivity|]).
  vm_compute; reflexivity.
Qed.


